(** * Borrow / return lifecycle of the library lending tracker

    A shallow embedding of [api/models.py], [api/serializers.py],
    [api/signals.py] and the two request handlers of [api/views.py]
    that drive them.  Database tables are finite maps keyed by primary
    key, datetimes are integers counting microseconds, and the code's
    exceptions and [transaction.atomic()] blocks are an error/state
    monad over the persisted rows and the mail outbox. *)

From Stdlib Require Import ZArith Ascii String.
From stdpp Require Import gmap strings list fin_maps.

Local Open Scope Z_scope.

(** ** Data model ([api/models.py]) *)

(** Primary keys and foreign keys are integers. *)
Abbreviation pk := Z (only parsing).

(** A datetime is a number of microseconds since the epoch, the
    resolution of Python's [datetime]. *)
Abbreviation datetime := Z (only parsing).

Record User := mkUser {
  username : string;
  email : string;
  penalty_points : Z
}.

(** [Book] keeps the columns the lending code reads or writes; the
    description, author and category columns are carried along by
    [book.save()] without being looked at. *)
Record Book := mkBook {
  title : string;
  total_copies : Z;
  available_copies : Z
}.

Record Borrow := mkBorrow {
  user_id : pk;
  book_id : pk;
  borrow_date : datetime;
  due_date : datetime;
  return_date : option datetime
}.

#[global] Instance User_eq_dec : EqDecision User.
Proof. solve_decision. Defined.
#[global] Instance Book_eq_dec : EqDecision Book.
Proof. solve_decision. Defined.
#[global] Instance Borrow_eq_dec : EqDecision Borrow.
Proof. solve_decision. Defined.

(** The persisted rows. *)
Record DB := mkDB {
  users : gmap Z User;
  books : gmap Z Book;
  borrows : gmap Z Borrow
}.

(** What [send_mail] hands to the mail transport: recipient, the book
    title of the subject line, and the username and due date the body
    is formatted from. *)
Record Mail := mkMail {
  mail_to : string;
  mail_title : string;
  mail_username : string;
  mail_due : datetime
}.

(** The observable state: the database and the outbox of the mail
    transport.  Only the former is transactional. *)
Record World := mkWorld {
  db : DB;
  outbox : list Mail
}.

(** ** Errors

    The request-level failures, named as the specification names them;
    [message] gives the text the source raises. *)
Inductive error :=
| NotAuthenticated
| BookNotFound
| PenaltyLimitExceeded
| BorrowLimitExceeded
| OutOfStock
| InvalidNotificationTarget
| InvalidOrAlreadyReturned
| NotOwner
| DoesNotExist.

#[global] Instance error_eq_dec : EqDecision error.
Proof. solve_decision. Defined.

Definition message (e : error) : string :=
  match e with
  | NotAuthenticated => "User must be authenticated."
  | BookNotFound => "Invalid pk - object does not exist."
  | PenaltyLimitExceeded => "Too many penalty points to borrow."
  | BorrowLimitExceeded => "User cannot borrow more than 3 books."
  | OutOfStock => "No available copies of this book."
  | InvalidNotificationTarget => "User email is missing or invalid."
  | InvalidOrAlreadyReturned => "Invalid or already returned borrow record."
  | NotOwner => "You can only return your own borrowed books."
  | DoesNotExist => "matching query does not exist."
  end.

(** ** The monad of request code

    A computation transforms the world and either raises or returns. *)
Definition M (A : Type) : Type := World -> World * (error + A).

Definition ret {A} (a : A) : M A := fun w => (w, inr a).

Definition raise {A} (e : error) : M A := fun w => (w, inl e).

Definition bind {A B} (m : M A) (k : A -> M B) : M B :=
  fun w =>
    match m w with
    | (w', inl e) => (w', inl e)
    | (w', inr a) => k a w'
    end.

Notation "x <- m ;; k" := (bind m (fun x => k))
  (at level 100, m at next level, right associativity).
Notation "m ;;; k" := (bind m (fun _ => k))
  (at level 100, right associativity).

Definition get_db : M DB := fun w => (w, inr (db w)).

Definition put_db (d : DB) : M unit :=
  fun w => (mkWorld d (outbox w), inr tt).

(** [with transaction.atomic():] commits the rows written by the body
    when it returns and restores them when it raises.  Mail already
    handed to the transport is not taken back. *)
Definition atomic {A} (body : M A) : M A :=
  fun w =>
    match body w with
    | (w', inl e) => (mkWorld (db w) (outbox w'), inl e)
    | (w', inr a) => (w', inr a)
    end.

(** [django.core.mail.send_mail]. *)
Definition send_mail (m : Mail) : M unit :=
  fun w => (mkWorld (db w) (outbox w ++ [m]), inr tt).

(** ** Regular expressions ([re.match])

    The notification handler validates the address with a regular
    expression.  Patterns are matched by derivatives. *)
Inductive regex :=
| Void
| Eps
| Class (p : ascii -> bool)
| Cat (r s : regex)
| Alt (r s : regex)
| Star (r : regex).

Fixpoint nullable (r : regex) : bool :=
  match r with
  | Void => false
  | Eps => true
  | Class _ => false
  | Cat r s => nullable r && nullable s
  | Alt r s => nullable r || nullable s
  | Star _ => true
  end.

Fixpoint deriv (c : ascii) (r : regex) : regex :=
  match r with
  | Void => Void
  | Eps => Void
  | Class p => if p c then Eps else Void
  | Cat r s =>
      if nullable r then Alt (Cat (deriv c r) s) (deriv c s)
      else Cat (deriv c r) s
  | Alt r s => Alt (deriv c r) (deriv c s)
  | Star r => Cat (deriv c r) (Star r)
  end.

Fixpoint matches (r : regex) (s : string) : bool :=
  match s with
  | EmptyString => nullable r
  | String c s' => matches (deriv c r) s'
  end.

(** [r+] and [r{2,}]. *)
Definition Plus (r : regex) : regex := Cat r (Star r).
Definition AtLeast2 (r : regex) : regex := Cat r (Cat r (Star r)).

Definition in_range (lo hi c : ascii) : bool :=
  ((N_of_ascii lo <=? N_of_ascii c) && (N_of_ascii c <=? N_of_ascii hi))%N.

Definition one_of (cs : string) (c : ascii) : bool :=
  existsb (Ascii.eqb c) (list_ascii_of_string cs).

Definition letter (c : ascii) : bool := in_range "a" "z" c || in_range "A" "Z" c.
Definition alnum (c : ascii) : bool := letter c || in_range "0" "9" c.

Definition newline : ascii := ascii_of_nat 10.

(** [re.match(r'^p$', s)]: without [re.MULTILINE], [^] anchors at the
    start and [$] matches at the end of the string or just before a
    newline that ends it. *)
Definition re_match_anchored (p : regex) (s : string) : bool :=
  matches (Cat p (Alt Eps (Class (Ascii.eqb newline)))) s.

(** [[a-zA-Z0-9._%+-]+@[a-zA-Z0-9.-]+\.[a-zA-Z]{2,}] *)
Definition email_pattern : regex :=
  Cat (Plus (Class (fun c => alnum c || one_of "._%+-" c)))
 (Cat (Class (Ascii.eqb "@"))
 (Cat (Plus (Class (fun c => alnum c || one_of ".-" c)))
 (Cat (Class (Ascii.eqb "."))
      (AtLeast2 (Class letter))))).

(** ** Dates *)

(** [timedelta(days=n)] in microseconds. *)
Definition timedelta_days (n : Z) : Z := n * 86400000000.

(** The [.days] attribute of a [timedelta]: Python normalises a
    difference so that [0 <= seconds < 86400], which rounds the day
    count towards minus infinity. *)
Definition days (delta : Z) : Z := delta / 86400000000.

(** ** The object-relational layer *)

(** The key the database gives to a newly inserted row: one more than
    the largest key of the table. *)
Definition next_pk {A} (table : gmap Z A) : Z :=
  1 + map_fold (fun k _ acc => Z.max k acc) 0 table.

(** Following a foreign key, [borrow.user] or [borrow.book]. *)
Definition fetch {A} (table : DB -> gmap Z A) (key : pk) : M A :=
  d <- get_db ;;
  match table d !! key with
  | Some row => ret row
  | None => raise DoesNotExist
  end.

(** [book.save()] and [user.save()] of an existing row. *)
Definition Book_save (key : pk) (b : Book) : M unit :=
  d <- get_db ;;
  put_db (mkDB (users d) (<[key := b]> (books d)) (borrows d)).

Definition User_save (key : pk) (u : User) : M unit :=
  d <- get_db ;;
  put_db (mkDB (<[key := u]> (users d)) (books d) (borrows d)).

(** ** The notification handler ([api/signals.py])

    The receiver of [post_save] for [Borrow].  [instance.user] and
    [instance.book] are the rows the foreign keys of the instance point
    to; both address checks raise the same kind of error. *)

Definition send_due_date_notification (instance : Borrow) (created : bool)
  : M unit :=
  if created then
    user <- fetch users (user_id instance) ;;
    if String.eqb (email user) EmptyString then
      raise InvalidNotificationTarget
    else if negb (re_match_anchored email_pattern (email user)) then
      raise InvalidNotificationTarget
    else
      book <- fetch books (book_id instance) ;;
      send_mail (mkMail (email user) (title book) (username user)
                        (due_date instance))
  else ret tt.

(** [Model.save] of a [Borrow]: an instance without a key is inserted
    under a new one, an instance with a key overwrites its row; either
    way [post_save] is then sent to the receiver registered for
    [Borrow], with [created] telling the two apart. *)
Definition Borrow_save (key : option pk) (br : Borrow) : M pk :=
  d <- get_db ;;
  let '(k, created) :=
    match key with
    | None => (next_pk (borrows d), true)
    | Some k => (k, false)
    end in
  put_db (mkDB (users d) (books d) (<[k := br]> (borrows d))) ;;;
  send_due_date_notification br created ;;;
  ret k.

(** [Borrow.objects.create(...)]. *)
Definition Borrow_objects_create (br : Borrow) : M pk := Borrow_save None br.

(** ** Serializers ([api/serializers.py]) *)

(** [Borrow.objects.filter(user=user, return_date__isnull=True).count()] *)
Definition active_borrows (uid : pk) (d : DB) : nat :=
  size (filter (fun kv : Z * Borrow =>
                  user_id kv.2 = uid ∧ return_date kv.2 = None)
               (borrows d)).

Module BorrowSerializer.

(** The [book_id] field, a [PrimaryKeyRelatedField] over all books:
    field validation resolves the key to its row before [validate]
    runs. *)
Definition book_id_field (value : pk) : M (pk * Book) :=
  d <- get_db ;;
  match books d !! value with
  | Some b => ret (value, b)
  | None => raise BookNotFound
  end.

(** [validate].  The request is always in the context of a view's
    serializer and [user.is_authenticated] holds of every user the
    view's permission lets through; the remaining checks follow. *)
Definition validate (user : pk * User) (book : pk * Book) : M unit :=
  if 50 <=? penalty_points user.2 then
    raise PenaltyLimitExceeded
  else
    d <- get_db ;;
    if (3 <=? active_borrows user.1 d)%nat then
      raise BorrowLimitExceeded
    else if available_copies book.2 <=? 0 then
      raise OutOfStock
    else ret tt.

(** [create].  [now1] and [now2] are the readings of the two
    [timezone.now()] calls, in the order they are made. *)
Definition create (user : pk * User) (book : pk * Book)
    (now1 now2 : datetime) : M (pk * Borrow) :=
  atomic (
    let b := mkBook (title book.2) (total_copies book.2)
                    (available_copies book.2 - 1) in
    Book_save book.1 b ;;;
    let br := mkBorrow user.1 book.1 now1
                       (now2 + timedelta_days 14) None in
    k <- Borrow_objects_create br ;;
    ret (k, br)).

End BorrowSerializer.

Module ReturnSerializer.

(** [validate_borrow_id].  Model instances compare by key, so
    [borrow.user != request.user] compares the foreign key with the
    key of the acting user. *)
Definition validate_borrow_id (user : pk * User) (value : pk) : M pk :=
  d <- get_db ;;
  match borrows d !! value with
  | Some br =>
      match return_date br with
      | None =>
          if bool_decide (user_id br ≠ user.1) then raise NotOwner
          else ret value
      | Some _ => raise InvalidOrAlreadyReturned
      end
  | None => raise InvalidOrAlreadyReturned
  end.

(** [save].  [now] is the reading of [timezone.now()]. *)
Definition save (borrow_id : pk) (now : datetime) : M (pk * Borrow) :=
  atomic (
    borrow <- fetch borrows borrow_id ;;
    book <- fetch books (book_id borrow) ;;
    user <- fetch users (user_id borrow) ;;
    let borrow' := mkBorrow (user_id borrow) (book_id borrow)
                            (borrow_date borrow) (due_date borrow)
                            (Some now) in
    let book' := mkBook (title book) (total_copies book)
                        (available_copies book + 1) in
    let user' :=
      if due_date borrow <? now then
        let days_late := Z.max (days (now - due_date borrow)) 0 in
        mkUser (username user) (email user)
               (penalty_points user + days_late * 2)
      else user in
    Borrow_save (Some borrow_id) borrow' ;;;
    Book_save (book_id borrow) book' ;;;
    User_save (user_id borrow) user' ;;;
    ret (borrow_id, borrow')).

End ReturnSerializer.

(** ** Views ([api/views.py]) *)

(** [permission_classes = [IsAuthenticated]]: the acting user is the
    row the credentials of the request resolve to. *)
Definition IsAuthenticated (uid : pk) : M (pk * User) :=
  d <- get_db ;;
  match users d !! uid with
  | Some u => ret (uid, u)
  | None => raise NotAuthenticated
  end.

Module BorrowView.

(** POST: permission, [serializer.is_valid], [serializer.save]. *)
Definition is_valid (uid bid : pk) : M ((pk * User) * (pk * Book)) :=
  user <- IsAuthenticated uid ;;
  book <- BorrowSerializer.book_id_field bid ;;
  BorrowSerializer.validate user book ;;;
  ret (user, book).

Definition create (uid bid : pk) (now1 now2 : datetime)
  : M (pk * Borrow) :=
  v <- is_valid uid bid ;;
  BorrowSerializer.create v.1 v.2 now1 now2.

End BorrowView.

Module ReturnView.

Definition is_valid (uid borrow_id : pk) : M pk :=
  user <- IsAuthenticated uid ;;
  ReturnSerializer.validate_borrow_id user borrow_id.

Definition create (uid borrow_id : pk) (now : datetime)
  : M (pk * Borrow) :=
  v <- is_valid uid borrow_id ;;
  ReturnSerializer.save v now.

End ReturnView.

(** The two operations of the lifecycle engine. *)
Definition CreateBorrow := BorrowView.create.
Definition CreateReturn := ReturnView.create.

(** ** Sequences of requests *)

Inductive request :=
| BorrowRequest (uid bid : pk) (now1 now2 : datetime)
| ReturnRequest (uid borrow_id : pk) (now : datetime).

(** The world a request leaves behind, whether it succeeds or fails. *)
Definition handle (w : World) (r : request) : World :=
  match r with
  | BorrowRequest uid bid now1 now2 => (CreateBorrow uid bid now1 now2 w).1
  | ReturnRequest uid borrow_id now => (CreateReturn uid borrow_id now w).1
  end.

Definition run (rs : list request) (w : World) : World := foldl handle w rs.

(** ** Racing return requests

    A return request touches the database in two separate steps: the
    validation, which runs outside any transaction, and then [save],
    which runs inside one.  Requests served at the same time are
    threads whose steps a schedule interleaves. *)
Inductive thread :=
| Received (uid borrow_id : pk) (now : datetime)
| Validated (borrow_id : pk) (now : datetime)
| Responded (r : error + pk * Borrow).

Definition step_thread (t : thread) (w : World) : World * thread :=
  match t with
  | Received uid borrow_id now =>
      match ReturnView.is_valid uid borrow_id w with
      | (w', inl e) => (w', Responded (inl e))
      | (w', inr v) => (w', Validated v now)
      end
  | Validated v now =>
      let r := ReturnSerializer.save v now w in (r.1, Responded r.2)
  | Responded _ => (w, t)
  end.

(** One step of the thread a schedule names. *)
Definition schedule_step (st : World * list thread) (i : nat)
  : World * list thread :=
  match st.2 !! i with
  | Some t => let r := step_thread t st.1 in (r.1, <[i := r.2]> st.2)
  | None => st
  end.

Definition run_schedule (sched : list nat) (st : World * list thread)
  : World * list thread :=
  foldl schedule_step st sched.

Definition succeeded (t : thread) : bool :=
  match t with
  | Responded (inr _) => true
  | _ => false
  end.

(** ** Inventory invariants *)

Definition in_bounds (b : Book) : Prop :=
  0 <= available_copies b <= total_copies b.

Definition copies_in_bounds (d : DB) : Prop :=
  map_Forall (fun _ b => in_bounds b) (books d).

(** The open borrows of a book. *)
Definition on_loan (bid : pk) (d : DB) : nat :=
  size (filter (fun kv : Z * Borrow =>
                  book_id kv.2 = bid ∧ return_date kv.2 = None)
               (borrows d)).

(** Every copy that is neither available nor lent out is accounted
    for: the inductive strengthening of [copies_in_bounds]. *)
Definition ledger_ok (d : DB) : Prop :=
  map_Forall (fun bid b =>
                0 <= available_copies b ∧
                available_copies b + Z.of_nat (on_loan bid d)
                  <= total_copies b)
             (books d).

(** A catalogue nobody has borrowed from yet. *)
Definition pristine (d : DB) : Prop :=
  borrows d = ∅ ∧ copies_in_bounds d.

(** The address checks of the notification handler. *)
Definition email_ok (u : User) : bool :=
  negb (String.eqb (email u) EmptyString)
  && re_match_anchored email_pattern (email u).

(** The borrow a successful [CreateBorrow] inserts. *)
Definition new_borrow (uid bid : pk) (now1 now2 : datetime) : Borrow :=
  mkBorrow uid bid now1 (now2 + timedelta_days 14) None.

Definition lend (b : Book) : Book :=
  mkBook (title b) (total_copies b) (available_copies b - 1).

Definition take_back (b : Book) : Book :=
  mkBook (title b) (total_copies b) (available_copies b + 1).

Definition close (br : Borrow) (now : datetime) : Borrow :=
  mkBorrow (user_id br) (book_id br) (borrow_date br) (due_date br) (Some now).

Definition penalise (u : User) (due now : datetime) : User :=
  if due <? now then
    mkUser (username u) (email u)
           (penalty_points u + Z.max (days (now - due)) 0 * 2)
  else u.

(** ** Sample data

    The fixture of [api/tests.py]: one user, one book with five
    copies. *)
Definition testuser : User := mkUser "testuser" "testuser@example.com" 0.
Definition test_book : Book := mkBook "Test Book" 5 5.

Definition test_world : World :=
  mkWorld (mkDB {[1 := testuser]} {[1 := test_book]} ∅) [].

(** The late return of [test_return_late_book_penalty]: the shelf is
    empty and the borrow of user 1 fell due 14 days after the epoch. *)
Definition overdue_world : World :=
  mkWorld (mkDB {[1 := testuser]} {[1 := mkBook "Test Book" 5 0]}
                {[1 := mkBorrow 1 1 0 (timedelta_days 14) None]}) [].

(** The same catalogue with no copy left to lend. *)
Definition sold_out_world : World :=
  mkWorld (mkDB {[1 := testuser]} {[1 := mkBook "Test Book" 5 0]} ∅) [].


(** A user who never gave an address, barred by penalty points. *)
Definition barred_world : World :=
  mkWorld (mkDB {[1 := mkUser "testuser" EmptyString 50]}
                {[1 := test_book]} ∅) [].

(** A user in good standing whose address has no domain. *)
Definition bad_address_world : World :=
  mkWorld (mkDB {[1 := mkUser "testuser" "testuser" 0]}
                {[1 := test_book]} ∅) [].

(** One copy out on an open borrow of user 1, due in 14 days. *)
Definition lent_world : World :=
  mkWorld (mkDB {[1 := testuser]} {[1 := mkBook "Test Book" 5 4]}
                {[1 := mkBorrow 1 1 0 (timedelta_days 14) None]}) [].

(** The borrow of [test_return_another_users_book]: user 2 holds the
    copy user 1 will try to return. *)
Definition two_readers_world : World :=
  mkWorld (mkDB {[1 := testuser;
                  2 := mkUser "otheruser" "other@example.com" 0]}
                {[1 := mkBook "Test Book" 5 4]}
                {[1 := mkBorrow 2 1 0 (timedelta_days 14) None]}) [].

(** ** Listing ([BorrowView.get_queryset])

    [Borrow.objects.filter(user=self.request.user,
    return_date__isnull=True)]: the rows a user sees under [borrow/]. *)
Definition BorrowView_get_queryset (uid : pk) (d : DB) : gmap Z Borrow :=
  filter (fun kv : Z * Borrow =>
            user_id kv.2 = uid ∧ return_date kv.2 = None)
         (borrows d).

(** ** The catalogue ([IsAdminOrReadOnly], [BookSerializer],
       [BookCreateUpdateView]) *)

Inductive http_method := GET | HEAD | OPTIONS | POST | PUT | PATCH | DELETE.

#[global] Instance http_method_eq_dec : EqDecision http_method.
Proof. solve_decision. Defined.

(** [rest_framework.permissions.SAFE_METHODS]. *)
Definition SAFE_METHODS : list http_method := [GET; HEAD; OPTIONS].

Module IsAdminOrReadOnly.

(** [has_permission].  [is_staff] is the flag of [request.user]; an
    anonymous user has it unset, so [request.user and
    request.user.is_staff] is the flag itself. *)
Definition has_permission (method : http_method) (is_staff : bool) : bool :=
  if bool_decide (method ∈ SAFE_METHODS) then true else is_staff.

End IsAdminOrReadOnly.

(** [Author] and [Category] ([api/models.py]). *)
Record Author := mkAuthor {
  author_name : string;
  bio : string
}.

Record Category := mkCategory {
  category_name : string
}.

(** The two tables a catalogue request reads besides the lending
    state, as they stand when the request is served. *)
Record Shelves := mkShelves {
  authors : gmap Z Author;
  categories : gmap Z Category
}.

(** The failures of a catalogue request.  [FieldRejected] stands for
    any error of a single field, which the serializer reports before
    [validate] is run. *)
Inductive book_error :=
| PermissionDenied
| FieldRejected
| NegativeCopies
| AvailableExceedsTotal.

(** The fields a request submits; a partial update may leave any out. *)
Record BookData := mkBookData {
  data_title : option string;
  data_total_copies : option Z;
  data_available_copies : option Z
}.

Module BookSerializer.

(** [validate].  A count the data leaves out is read from the instance
    being updated, and is 0 when there is none. *)
Definition validate (instance : option Book) (data : BookData)
  : book_error + BookData :=
  let total :=
    default (from_option total_copies 0 instance) (data_total_copies data) in
  let available :=
    default (from_option available_copies 0 instance)
            (data_available_copies data) in
  if (total <? 0) || (available <? 0) then inl NegativeCopies
  else if total <? available then inl AvailableExceedsTotal
  else inr data.

End BookSerializer.

(** What a creation request submits.  The title, description and
    counts go through the checks of their field classes, which belong
    to the framework: [form_book] is what those fields hand on, and is
    [None] when one of them is missing or refused.  The two keys are
    resolved against their tables below. *)
Record BookForm := mkBookForm {
  form_book : option Book;
  form_author_id : option pk;
  form_category_id : option pk
}.

(** [author_id = PrimaryKeyRelatedField(queryset=Author.objects.all(),
    source='author', write_only=True)]: required, and the key of an
    author that exists. *)
Definition BookSerializer_author_id_field (shelves : Shelves)
    (value : option pk) : option (pk * Author) :=
  match value with
  | Some k =>
      match authors shelves !! k with
      | Some a => Some (k, a)
      | None => None
      end
  | None => None
  end.

(** [category_id], likewise over [Category.objects.all()]. *)
Definition BookSerializer_category_id_field (shelves : Shelves)
    (value : option pk) : option (pk * Category) :=
  match value with
  | Some k =>
      match categories shelves !! k with
      | Some c => Some (k, c)
      | None => None
      end
  | None => None
  end.

Module BookCreateUpdateView.

(** POST: permission, then [serializer.is_valid], which runs the fields
    and then [validate], then [Book.objects.create] of the validated
    fields.  No receiver listens to the [post_save] of a book. *)
Definition create (is_staff : bool) (shelves : Shelves) (form : BookForm)
    (w : World) : World * (book_error + pk * Book) :=
  if negb (IsAdminOrReadOnly.has_permission POST is_staff) then
    (w, inl PermissionDenied)
  else
    match form_book form,
          BookSerializer_author_id_field shelves (form_author_id form),
          BookSerializer_category_id_field shelves (form_category_id form)
    with
    | Some b, Some _, Some _ =>
        match BookSerializer.validate None
                (mkBookData (Some (title b)) (Some (total_copies b))
                            (Some (available_copies b))) with
        | inl e => (w, inl e)
        | inr _ =>
            let k := next_pk (books (db w)) in
            (mkWorld (mkDB (users (db w)) (<[k := b]> (books (db w)))
                           (borrows (db w)))
                     (outbox w),
             inr (k, b))
        end
    | _, _, _ => (w, inl FieldRejected)
    end.

End BookCreateUpdateView.

(** Lending requests and catalogue requests, mixed. *)
Inductive library_request :=
| AddBook (is_staff : bool) (shelves : Shelves) (form : BookForm)
| Lend (r : request).

Definition serve (w : World) (r : library_request) : World :=
  match r with
  | AddBook is_staff shelves form =>
      (BookCreateUpdateView.create is_staff shelves form w).1
  | Lend r => handle w r
  end.

Definition serve_all (rs : list library_request) (w : World) : World :=
  foldl serve w rs.

(** Every borrow points to a book that exists. *)
Definition refs_ok (d : DB) : Prop :=
  map_Forall (fun _ br => is_Some (books d !! book_id br)) (borrows d).

(** A database with users but neither books nor borrows. *)
Definition empty_library : World :=
  mkWorld (mkDB {[1 := testuser]} ∅ ∅) [].

(** The author and the category of the fixture of [api/tests.py]. *)
Definition test_shelves : Shelves :=
  mkShelves {[1 := mkAuthor "John Doe" "Author bio"]}
            {[1 := mkCategory "Fiction"]}.

(** A complete creation request for a book of the fixture's author and
    category. *)
Definition new_book_form (b : Book) : BookForm :=
  mkBookForm (Some b) (Some 1) (Some 1).

(** The last copy of a book, and two readers who want it. *)
Definition last_copy_world : World :=
  mkWorld (mkDB {[1 := testuser;
                  2 := mkUser "otheruser" "other@example.com" 0]}
                {[1 := mkBook "Test Book" 1 1]} ∅) [].

(** ** What a pattern means

    The strings a regular expression denotes, to which the matcher is
    held. *)
Inductive lang : regex → string → Prop :=
| lang_eps : lang Eps EmptyString
| lang_class p c : p c = true → lang (Class p) (String c EmptyString)
| lang_cat r s u v : lang r u → lang s v → lang (Cat r s) (u +:+ v)
| lang_alt_l r s u : lang r u → lang (Alt r s) u
| lang_alt_r r s u : lang s u → lang (Alt r s) u
| lang_star_nil r : lang (Star r) EmptyString
| lang_star_cons r u v :
    lang r u → lang (Star r) v → lang (Star r) (u +:+ v).

(** Every character of a string is in a class. *)
Fixpoint all_chars (p : ascii → bool) (s : string) : bool :=
  match s with
  | EmptyString => true
  | String c s' => p c && all_chars p s'
  end.

(** The character classes of the address pattern. *)
Definition local_char (c : ascii) : bool := alnum c || one_of "._%+-" c.
Definition domain_char (c : ascii) : bool := alnum c || one_of ".-" c.

(** ** Proof tactics *)

Ltac unfold_ops :=
  unfold CreateBorrow, CreateReturn, BorrowView.create, BorrowView.is_valid,
    ReturnView.create, ReturnView.is_valid, BorrowSerializer.create,
    BorrowSerializer.validate, BorrowSerializer.book_id_field,
    ReturnSerializer.save, ReturnSerializer.validate_borrow_id,
    IsAuthenticated, Borrow_objects_create, Borrow_save,
    send_due_date_notification, Book_save, User_save, fetch, send_mail,
    atomic, bind, ret, raise, get_db, put_db in *.

Tactic Notation "rd" :=
  cbn [db outbox users books borrows fst snd negb
       user_id book_id borrow_date due_date return_date].
Tactic Notation "rd" "in" hyp(H) :=
  cbn [db outbox users books borrows fst snd negb
       user_id book_id borrow_date due_date return_date] in H.

(** * Properties *)

(** ** Tables *)

Lemma next_pk_above {A} (table : gmap Z A) k x :
  table !! k = Some x → k < next_pk table.
Proof.
  unfold next_pk. revert k x.
  apply (map_fold_weak_ind
           (fun acc (m : gmap Z A) => ∀ k x, m !! k = Some x → k < 1 + acc)).
  - intros k x. by rewrite lookup_empty.
  - intros i y m r _ IH k x. rewrite lookup_insert_Some.
    intros [[-> _]|[_ Hk]]; [lia|]. specialize (IH _ _ Hk). lia.
Qed.

Lemma next_pk_fresh {A} (table : gmap Z A) : table !! next_pk table = None.
Proof.
  destruct (table !! next_pk table) as [x|] eqn:E; [|done].
  apply next_pk_above in E. lia.
Qed.

Section counting.
Context {A : Type} (P : Z * A → Prop) `{!∀ kv, Decision (P kv)}.

Lemma size_filter_insert_new (m : gmap Z A) k x :
  m !! k = None →
  size (filter P (<[k := x]> m))
  = (if decide (P (k, x)) then S (size (filter P m)) else size (filter P m)).
Proof.
  intros Hk. rewrite map_filter_insert. case_decide.
  - rewrite map_size_insert_None; [done|].
    apply map_lookup_filter_None. by left.
  - by rewrite delete_id.
Qed.

Lemma size_filter_insert_drop (m : gmap Z A) k x y :
  m !! k = Some x → P (k, x) → ¬ P (k, y) →
  S (size (filter P (<[k := y]> m))) = size (filter P m).
Proof.
  intros Hk Hx Hy. rewrite map_filter_insert_False, map_filter_delete by done.
  assert (filter P m !! k = Some x) as Hf
    by (by apply map_lookup_filter_Some).
  rewrite map_size_delete, Hf.
  pose proof (map_size_ne_0_lookup_2 (filter P m) k (ex_intro _ x Hf)).
  simpl. lia.
Qed.

Lemma size_filter_insert_same (m : gmap Z A) k x y :
  m !! k = Some x → ¬ P (k, x) → ¬ P (k, y) →
  size (filter P (<[k := y]> m)) = size (filter P m).
Proof.
  intros Hk Hx Hy. apply f_equal, map_filter_insert_not'; [done|].
  intros z Hz. by simplify_eq.
Qed.
End counting.

(** ** The address pattern *)

Example address_of_fixture_accepted :
  re_match_anchored email_pattern "testuser@example.com" = true.
Proof. reflexivity. Qed.

Example address_with_subdomain_accepted :
  re_match_anchored email_pattern "a.b+c@mail.example.org" = true.
Proof. reflexivity. Qed.

Example address_without_domain_rejected :
  re_match_anchored email_pattern "testuser" = false.
Proof. reflexivity. Qed.

Example one_letter_tld_rejected :
  re_match_anchored email_pattern "a@b.c" = false.
Proof. reflexivity. Qed.

Example space_in_local_part_rejected :
  re_match_anchored email_pattern "a b@example.com" = false.
Proof. reflexivity. Qed.

Example trailing_newline_accepted :
  re_match_anchored email_pattern
    (String.append "testuser@example.com" (String newline EmptyString)) = true.
Proof. reflexivity. Qed.

(** ** What the two operations do *)

(** [CreateBorrow] either fails and changes nothing, or passed every
    check and did all of its writes. *)
Lemma CreateBorrow_cases uid bid now1 now2 w w' r :
  CreateBorrow uid bid now1 now2 w = (w', r) →
  (∃ e, r = inl e ∧ w' = w) ∨
  (∃ u b,
     users (db w) !! uid = Some u ∧ books (db w) !! bid = Some b ∧
     penalty_points u < 50 ∧ (active_borrows uid (db w) < 3)%nat ∧
     0 < available_copies b ∧ email_ok u = true ∧
     r = inr (next_pk (borrows (db w)), new_borrow uid bid now1 now2) ∧
     w' = mkWorld
            (mkDB (users (db w)) (<[bid := lend b]> (books (db w)))
                  (<[next_pk (borrows (db w)) := new_borrow uid bid now1 now2]>
                     (borrows (db w))))
            (outbox w ++ [mkMail (email u) (title b) (username u)
                                 (now2 + timedelta_days 14)])).
Proof.
  destruct w as [[us bs brs] ob]. unfold_ops. rd.
  intros H.
  destruct (us !! uid) as [u|] eqn:Hu; rd in H; [|left; eexists; by simplify_eq].
  destruct (bs !! bid) as [b|] eqn:Hb; rd in H; [|left; eexists; by simplify_eq].
  destruct (50 <=? penalty_points u) eqn:Hp; rd in H;
    [left; eexists; by simplify_eq|].
  unfold active_borrows in *. cbn [borrows] in *.
  destruct (3 <=? _)%nat eqn:Ha in H; rd in H; [left; eexists; by simplify_eq|].
  destruct (available_copies b <=? 0) eqn:Hc; rd in H;
    [left; eexists; by simplify_eq|].
  rewrite Hu in H. rd in H.
  unfold email_ok.
  destruct (String.eqb (email u) EmptyString) eqn:He; rd in H;
    [left; eexists; by simplify_eq|].
  destruct (re_match_anchored email_pattern (email u)) eqn:Hm; rd in H;
    [|left; eexists; by simplify_eq].
  rewrite lookup_insert_eq in H. rd in H. simplify_eq.
  right. exists u, b. rewrite He, Hm.
  apply Z.leb_gt in Hp, Hc. apply Nat.leb_gt in Ha.
  repeat split; done.
Qed.

(** Likewise for [CreateReturn]. *)
Lemma CreateReturn_cases uid k now w w' r :
  CreateReturn uid k now w = (w', r) →
  (∃ e, r = inl e ∧ w' = w) ∨
  (∃ u br b,
     users (db w) !! uid = Some u ∧ borrows (db w) !! k = Some br ∧
     return_date br = None ∧ user_id br = uid ∧
     books (db w) !! book_id br = Some b ∧
     r = inr (k, close br now) ∧
     w' = mkWorld
            (mkDB (<[uid := penalise u (due_date br) now]> (users (db w)))
                  (<[book_id br := take_back b]> (books (db w)))
                  (<[k := close br now]> (borrows (db w))))
            (outbox w)).
Proof.
  destruct w as [[us bs brs] ob]. unfold_ops. rd.
  intros H.
  destruct (us !! uid) as [u|] eqn:Hu; rd in H; [|left; eexists; by simplify_eq].
  destruct (brs !! k) as [br|] eqn:Hbr; rd in H; [|left; eexists; by simplify_eq].
  destruct (return_date br) eqn:Hr; rd in H; [left; eexists; by simplify_eq|].
  case_bool_decide as Ho; rd in H; [left; eexists; by simplify_eq|].
  subst uid.
  rewrite Hbr in H. rd in H.
  destruct (bs !! book_id br) as [b|] eqn:Hb; rd in H;
    [|left; eexists; by simplify_eq].
  rewrite Hu in H. rd in H. simplify_eq.
  right. exists u, br, b. repeat split; done.
Qed.

(** ** The inventory ledger *)

Lemma on_loan_insert_new us bs us' bs' (brs : gmap Z Borrow) k br j :
  brs !! k = None →
  on_loan j (mkDB us' bs' (<[k := br]> brs))
  = (if decide (book_id br = j ∧ return_date br = None)
     then S (on_loan j (mkDB us bs brs)) else on_loan j (mkDB us bs brs)).
Proof.
  intros Hk. unfold on_loan. rd.
  by rewrite size_filter_insert_new.
Qed.

Lemma on_loan_close us bs us' bs' (brs : gmap Z Borrow) k br now j :
  brs !! k = Some br → return_date br = None →
  Z.of_nat (on_loan j (mkDB us' bs' (<[k := close br now]> brs)))
  = Z.of_nat (on_loan j (mkDB us bs brs))
    - (if decide (book_id br = j) then 1 else 0).
Proof.
  intros Hk Hopen. unfold on_loan. rd.
  set (P := fun kv : Z * Borrow => book_id kv.2 = j ∧ return_date kv.2 = None).
  assert (¬ P (k, close br now)) as Hclosed by (intros [_ ?]; done).
  case_decide as Hj.
  - rewrite <- (size_filter_insert_drop P brs k br (close br now)); [lia|done..].
  - rewrite (size_filter_insert_same P brs k br); [lia|done| |done].
    intros [? _]. done.
Qed.

Lemma pristine_ledger_ok d : pristine d → ledger_ok d.
Proof.
  intros [Hnone Hb] j b Hj. specialize (Hb j b Hj). unfold in_bounds in Hb.
  unfold on_loan. rewrite Hnone, map_filter_empty, map_size_empty. simpl. lia.
Qed.

Lemma ledger_ok_in_bounds d : ledger_ok d → copies_in_bounds d.
Proof.
  intros H j b Hj. specialize (H j b Hj). unfold in_bounds. simpl in *. lia.
Qed.

Lemma CreateBorrow_ledger_ok uid bid now1 now2 w :
  ledger_ok (db w) → ledger_ok (db (CreateBorrow uid bid now1 now2 w).1).
Proof.
  intros Hok.
  destruct (CreateBorrow uid bid now1 now2 w) as [w' r] eqn:E.
  apply CreateBorrow_cases in E
    as [(e & -> & ->)|(u & b & Hu & Hb & _ & _ & Hav & _ & -> & ->)]; [done|].
  destruct w as [[us bs brs] ob]. rd in Hu. rd in Hb. rd in Hok. rd.
  intros j bj Hj. rd in Hj.
  rewrite (on_loan_insert_new us bs) by apply next_pk_fresh.
  apply lookup_insert_Some in Hj as [[<- <-]|[Hne Hj]].
  - specialize (Hok _ _ Hb). simpl in Hok. unfold new_borrow at 1. simpl.
    rewrite decide_True by done. lia.
  - specialize (Hok _ _ Hj). simpl in Hok. unfold new_borrow at 1. simpl.
    rewrite decide_False by (intros [? _]; done). lia.
Qed.

Lemma CreateReturn_ledger_ok uid k now w :
  ledger_ok (db w) → ledger_ok (db (CreateReturn uid k now w).1).
Proof.
  intros Hok.
  destruct (CreateReturn uid k now w) as [w' r] eqn:E.
  apply CreateReturn_cases in E
    as [(e & -> & ->)|(u & br & b & Hu & Hbr & Hopen & Hown & Hb & -> & ->)];
    [done|].
  destruct w as [[us bs brs] ob]. rd in Hu. rd in Hb. rd in Hbr. rd in Hok. rd.
  intros j bj Hj. rd in Hj.
  rewrite (on_loan_close us bs) by done.
  apply lookup_insert_Some in Hj as [[<- <-]|[Hne Hj]].
  - specialize (Hok _ _ Hb). simpl in Hok. simpl.
    rewrite decide_True by done. lia.
  - specialize (Hok _ _ Hj). simpl in Hok.
    rewrite decide_False by done. lia.
Qed.

Lemma handle_ledger_ok w r : ledger_ok (db w) → ledger_ok (db (handle w r)).
Proof.
  destruct r; simpl;
    [apply CreateBorrow_ledger_ok | apply CreateReturn_ledger_ok].
Qed.

Lemma run_ledger_ok rs w : ledger_ok (db w) → ledger_ok (db (run rs w)).
Proof.
  unfold run. revert w.
  induction rs as [|r rs IH]; intros w Hok; simpl; [done|].
  by apply IH, handle_ledger_ok.
Qed.

(** Requests served one after another keep the bounds: starting from a
    catalogue whose books satisfy
    [0 <= available_copies <= total_copies] and that has no borrow
    records yet, every state reached by any sequence of CreateBorrow
    and CreateReturn requests, successful or failing, keeps
    [0 <= available_copies <= total_copies] for every book. *)
Theorem available_copies_within_bounds (w0 : World) (rs : list request) :
  pristine (db w0) →
  ∀ bid b, books (db (run rs w0)) !! bid = Some b →
           0 <= available_copies b <= total_copies b.
Proof.
  intros Hinit bid b Hb.
  apply pristine_ledger_ok, (run_ledger_ok rs), ledger_ok_in_bounds in Hinit.
  exact (Hinit bid b Hb).
Qed.

Lemma available_copies_within_bounds_witness :
  0 <= available_copies (mkBook "Test Book" 5 4)
    <= total_copies (mkBook "Test Book" 5 4).
Proof.
  refine (available_copies_within_bounds test_world
            [BorrowRequest 1 1 100 101; BorrowRequest 1 1 200 201;
             ReturnRequest 1 1 300; ReturnRequest 1 1 400] _ 1 _ _).
  - split; [reflexivity|].
    apply map_Forall_singleton. unfold in_bounds. simpl. lia.
  - vm_compute. reflexivity.
Defined.

(** Why the proof counts open borrows: a book with every copy on the
    shelf and an open borrow against it is a state no sequence of
    requests produces from a pristine catalogue, and there a return
    would put a sixth copy on a shelf of five. *)
Example return_without_matching_decrement :
  let w := mkWorld (mkDB {[1 := testuser]} {[1 := test_book]}
                         {[1 := new_borrow 1 1 0 0]}) [] in
  copies_in_bounds (db w) ∧
  books (db (CreateReturn 1 1 5 w).1) !! 1 = Some (mkBook "Test Book" 5 6).
Proof.
  split; [|vm_compute; reflexivity].
  apply map_Forall_singleton. unfold in_bounds. simpl. lia.
Qed.

(** C1. The bounds do not hold at all times once requests are served
    at the same time.  From the pristine fixture, one CreateBorrow
    followed by two CreateReturn requests for that borrow, both
    validated before either is saved, leaves the book with 6 available
    copies out of a total of 5. *)
Theorem bounds_broken_by_racing_returns :
  pristine (db test_world) ∧
  let w1 := run [BorrowRequest 1 1 100 101] test_world in
  let st := run_schedule [0; 1; 0; 1]%nat
              (w1, [Received 1 1 200; Received 1 1 300]) in
  books (db w1) !! 1 = Some (mkBook "Test Book" 5 4) ∧
  succeeded <$> st.2 = [true; true] ∧
  ∃ b, books (db st.1) !! 1 = Some b ∧
       available_copies b = 6 ∧ total_copies b = 5 ∧
       ¬ (0 <= available_copies b <= total_copies b).
Proof.
  split.
  - split; [reflexivity|].
    apply map_Forall_singleton. unfold in_bounds. simpl. lia.
  - cbn zeta. split; [vm_compute; reflexivity|].
    split; [vm_compute; reflexivity|].
    exists (mkBook "Test Book" 5 6).
    split; [vm_compute; reflexivity|]. simpl. lia.
Qed.

(** ** Due dates *)

Lemma CreateBorrow_dates uid bid now1 now2 w w' r :
  CreateBorrow uid bid now1 now2 w = (w', inr r) →
  borrow_date r.2 = now1 ∧ due_date r.2 = now2 + 14 * 86400000000 ∧
  return_date r.2 = None ∧ borrows (db w') !! r.1 = Some r.2.
Proof.
  intros E. apply CreateBorrow_cases in E
    as [(e & ? & _)|(u & b & _ & _ & _ & _ & _ & _ & Hr & ->)]; [done|].
  simplify_eq. rd. rewrite lookup_insert_eq.
  unfold new_borrow, timedelta_days. simpl. repeat split; done || lia.
Qed.

(** C2. The two clock readings of [BorrowSerializer.create] need not
    coincide: with a first reading of 0 and a second of 1 microsecond
    the borrow is created with a [due_date] that is not
    [borrow_date] plus 14 days. *)
Theorem due_date_from_second_clock_reading :
  ∃ w' k br,
    CreateBorrow 1 1 0 1 test_world = (w', inr (k, br)) ∧
    borrow_date br = 0 ∧
    due_date br = 1209600000001 ∧
    due_date br ≠ borrow_date br + 14 * 86400000000.
Proof.
  eexists _, _, _. split; [vm_compute; reflexivity|].
  simpl. repeat split; done.
Qed.

(** ** Penalties *)

(** C3. A successful CreateReturn stamps the borrow with the clock
    reading; when that is later than the due date the borrower's
    penalty points grow by exactly twice the number of whole days
    between the two (rounded down, clamped at zero), and when it is not
    they stay as they were.  Six days late adds twelve points. *)
Theorem late_return_penalty uid k now w w' r :
  CreateReturn uid k now w = (w', inr r) →
  ∃ br u u',
    borrows (db w) !! k = Some br ∧
    users (db w) !! user_id br = Some u ∧
    users (db w') !! user_id br = Some u' ∧
    return_date r.2 = Some now ∧
    (due_date br < now →
       penalty_points u'
       = penalty_points u + 2 * Z.max ((now - due_date br) / 86400000000) 0 ∧
       0 <= (now - due_date br) / 86400000000) ∧
    (now <= due_date br → penalty_points u' = penalty_points u).
Proof.
  intros E. apply CreateReturn_cases in E
    as [(e & ? & _)|(u & br & b & Hu & Hbr & _ & Hown & _ & ? & ->)]; [done|].
  simplify_eq. exists br, u, (penalise u (due_date br) now). rd.
  rewrite lookup_insert_eq. unfold penalise, days.
  repeat split; try done.
  - rewrite (proj2 (Z.ltb_lt _ _)) by done. simpl. lia.
  - apply Z.div_pos; lia.
  - intros Hle. by rewrite (proj2 (Z.ltb_ge _ _)).
Qed.

Lemma late_return_penalty_witness :
  ∃ br u u',
    borrows (db overdue_world) !! 1 = Some br ∧
    users (db overdue_world) !! user_id br = Some u ∧
    users (db (CreateReturn 1 1 (timedelta_days 20 + 7) overdue_world).1)
      !! user_id br = Some u' ∧
    penalty_points u = 0 ∧ penalty_points u' = 12.
Proof.
  destruct (late_return_penalty 1 1 (timedelta_days 20 + 7) overdue_world
              (CreateReturn 1 1 (timedelta_days 20 + 7) overdue_world).1
              (1, close (mkBorrow 1 1 0 (timedelta_days 14) None)
                        (timedelta_days 20 + 7)))
    as (br & u & u' & Hbr & Hu & Hu' & _ & Hlate & _).
  { vm_compute. reflexivity. }
  exists br, u, u'. repeat split; try done.
  - vm_compute in Hbr. simplify_eq. vm_compute in Hu. by simplify_eq.
  - vm_compute in Hbr. simplify_eq. vm_compute in Hu. simplify_eq.
    destruct Hlate as [-> _]; [vm_compute; reflexivity|]. vm_compute. reflexivity.
Defined.

(** ** Borrowing: the order of the checks *)

Lemma failed_borrow_changes_nothing uid bid now1 now2 w w' e :
  CreateBorrow uid bid now1 now2 w = (w', inl e) → w' = w.
Proof.
  intros E. apply CreateBorrow_cases in E
    as [(e' & _ & ->)|(u & b & _ & _ & _ & _ & _ & _ & ? & _)]; done.
Qed.

(** C4. For an authenticated user CreateBorrow reports a missing book
    first, then 50 or more penalty points, then three or more open
    borrows, then a book without available copies; each is a distinct
    error decided by the first check that fails, and every failing
    CreateBorrow leaves the books, borrows, users and outbox as they
    were. *)
Theorem borrow_checks_in_order uid u bid now1 now2 w :
  users (db w) !! uid = Some u →
  (books (db w) !! bid = None →
     CreateBorrow uid bid now1 now2 w = (w, inl BookNotFound)) ∧
  (∀ b, books (db w) !! bid = Some b →
     (50 <= penalty_points u →
        CreateBorrow uid bid now1 now2 w = (w, inl PenaltyLimitExceeded)) ∧
     (penalty_points u < 50 → (3 <= active_borrows uid (db w))%nat →
        CreateBorrow uid bid now1 now2 w = (w, inl BorrowLimitExceeded)) ∧
     (penalty_points u < 50 → (active_borrows uid (db w) < 3)%nat →
      available_copies b <= 0 →
        CreateBorrow uid bid now1 now2 w = (w, inl OutOfStock))) ∧
  (∀ w' e, CreateBorrow uid bid now1 now2 w = (w', inl e) → w' = w).
Proof.
  intros Hu. destruct w as [[us bs brs] ob]. rd in Hu.
  split; [|split].
  - intros Hb. rd in Hb. unfold_ops. rd. rewrite Hu. rd. by rewrite Hb.
  - intros b Hb. rd in Hb. unfold_ops. rd. rewrite Hu. rd. rewrite Hb. rd.
    split; [|split].
    + intros Hp. by rewrite (proj2 (Z.leb_le _ _) Hp).
    + intros Hp Ha. rewrite (proj2 (Z.leb_gt _ _) Hp). rd.
      by rewrite (proj2 (Nat.leb_le _ _) Ha).
    + intros Hp Ha Hc. rewrite (proj2 (Z.leb_gt _ _) Hp). rd.
      rewrite (proj2 (Nat.leb_gt _ _) Ha).
      by rewrite (proj2 (Z.leb_le _ _) Hc).
  - intros w' e. apply failed_borrow_changes_nothing.
Qed.

Lemma borrow_checks_in_order_witness :
  CreateBorrow 1 1 0 0 sold_out_world = (sold_out_world, inl OutOfStock).
Proof.
  assert (users (db sold_out_world) !! 1 = Some testuser) as Hu
    by (vm_compute; reflexivity).
  assert (books (db sold_out_world) !! 1 = Some (mkBook "Test Book" 5 0))
    as Hb by (vm_compute; reflexivity).
  destruct (borrow_checks_in_order 1 testuser 1 0 0 sold_out_world Hu)
    as (_ & Hchecks & _).
  destruct (Hchecks _ Hb) as (_ & _ & Hstock).
  apply Hstock.
  - simpl. lia.
  - vm_compute. lia.
  - simpl. lia.
Defined.

(** ** Returning: closed borrows stay closed *)







(** ** Borrow then return *)

(** C7. A successful CreateBorrow of a book takes exactly one copy off
    the shelf, and a successful CreateReturn on the borrow it created,
    with nothing in between, puts exactly one back: the book's
    [available_copies] is what it was before the borrow. *)
Theorem borrow_then_return_restores_copies
    uid bid now1 now2 uid' now3 w w1 w2 k br r :
  CreateBorrow uid bid now1 now2 w = (w1, inr (k, br)) →
  CreateReturn uid' k now3 w1 = (w2, inr r) →
  ∃ b b1 b2,
    books (db w) !! bid = Some b ∧
    books (db w1) !! bid = Some b1 ∧
    books (db w2) !! bid = Some b2 ∧
    available_copies b1 = available_copies b - 1 ∧
    available_copies b2 = available_copies b1 + 1 ∧
    available_copies b2 = available_copies b.
Proof.
  intros E1 E2.
  apply CreateBorrow_cases in E1
    as [(e & ? & _)|(u & b & _ & Hb & _ & _ & _ & _ & ? & ->)]; [done|].
  simplify_eq.
  apply CreateReturn_cases in E2
    as [(e & ? & _)|(u' & br' & b' & _ & Hbr & _ & _ & Hb' & ? & ->)];
    [done|].
  simplify_eq. rd in Hbr. rd in Hb'.
  rewrite lookup_insert_eq in Hbr. simplify_eq.
  unfold new_borrow in Hb'. rd in Hb'. rewrite lookup_insert_eq in Hb'.
  simplify_eq. unfold new_borrow. rd.
  exists b, (lend b), (take_back (lend b)).
  rewrite !lookup_insert_eq.
  repeat split; try done. simpl. lia.
Qed.

Lemma borrow_then_return_restores_copies_witness :
  ∃ b b1 b2,
    books (db test_world) !! 1 = Some b ∧
    books (db (CreateBorrow 1 1 100 101 test_world).1) !! 1 = Some b1 ∧
    books (db (CreateReturn 1 1 200
                 (CreateBorrow 1 1 100 101 test_world).1).1) !! 1 = Some b2 ∧
    available_copies b1 = available_copies b - 1 ∧
    available_copies b2 = available_copies b1 + 1 ∧
    available_copies b2 = available_copies b.
Proof.
  eapply (borrow_then_return_restores_copies 1 1 100 101 1 200 test_world).
  - vm_compute. reflexivity.
  - vm_compute. reflexivity.
Defined.

(** ** Notifications *)

(** C8, as stated, fails: a user without an address who is also
    barred by penalty points is told PenaltyLimitExceeded, since the
    address is only looked at once the borrow is being created. *)
Lemma missing_email_behind_failed_check :
  users (db barred_world) !! 1 = Some (mkUser "testuser" EmptyString 50) ∧
  email_ok (mkUser "testuser" EmptyString 50) = false ∧
  CreateBorrow 1 1 0 0 barred_world = (barred_world, inl PenaltyLimitExceeded) ∧
  (CreateBorrow 1 1 0 0 barred_world).2 ≠ inl InvalidNotificationTarget.
Proof.
  repeat split; try (vm_compute; reflexivity).
  vm_compute. discriminate.
Qed.

(** C8, amended. When the acting user's email is missing or does not
    match the pattern, CreateBorrow always fails and leaves everything
    as it was: no borrow is stored, no copy is taken and no mail is
    sent.  The error is InvalidNotificationTarget whenever the book
    exists, the user has fewer than 50 penalty points and fewer than 3
    open borrows and the book has a copy available. *)
Theorem invalid_email_fails_borrow uid u bid now1 now2 w :
  users (db w) !! uid = Some u → email_ok u = false →
  (∃ e, CreateBorrow uid bid now1 now2 w = (w, inl e)) ∧
  (∀ b, books (db w) !! bid = Some b →
        penalty_points u < 50 → (active_borrows uid (db w) < 3)%nat →
        0 < available_copies b →
        CreateBorrow uid bid now1 now2 w
        = (w, inl InvalidNotificationTarget)).
Proof.
  intros Hu Hbad. split.
  - destruct (CreateBorrow uid bid now1 now2 w) as [w' r] eqn:E.
    apply CreateBorrow_cases in E
      as [(e & -> & ->)|(u' & b & Hu' & _ & _ & _ & _ & Hok & _ & _)];
      [by eexists|].
    congruence.
  - intros b Hb Hp Ha Hc. destruct w as [[us bs brs] ob].
    rd in Hu. rd in Hb. rd in Ha. unfold_ops. rd. rewrite Hu. rd. rewrite Hb. rd.
    rewrite (proj2 (Z.leb_gt _ _) Hp). rd.
    rewrite (proj2 (Nat.leb_gt _ _) Ha).
    rewrite (proj2 (Z.leb_gt _ _) Hc). rd. rewrite Hu. rd.
    unfold email_ok in Hbad.
    destruct (String.eqb (email u) EmptyString); [done|].
    simpl in Hbad. rewrite Hbad. done.
Qed.

Lemma invalid_email_fails_borrow_witness :
  CreateBorrow 1 1 0 0 bad_address_world
  = (bad_address_world, inl InvalidNotificationTarget).
Proof.
  refine (proj2 (invalid_email_fails_borrow 1 (mkUser "testuser" "testuser" 0)
                   1 0 0 bad_address_world _ _) test_book _ _ _ _).
  - vm_compute. reflexivity.
  - vm_compute. reflexivity.
  - vm_compute. reflexivity.
  - simpl. lia.
  - vm_compute. lia.
  - simpl. lia.
Defined.

(** C9. A successful CreateBorrow hands exactly one message to the
    mail transport, addressed to the borrower and carrying the due date
    of the new borrow; a failing one hands over none.  Saving an
    existing borrow sends nothing, and so CreateReturn, successful or
    not, leaves the outbox as it was. *)
Theorem one_notification_per_borrow :
  (∀ uid bid now1 now2 w w' r,
     CreateBorrow uid bid now1 now2 w = (w', inr r) →
     ∃ m u, outbox w' = outbox w ++ [m] ∧
            users (db w) !! uid = Some u ∧
            mail_to m = email u ∧ mail_due m = due_date r.2) ∧
  (∀ uid bid now1 now2 w w' e,
     CreateBorrow uid bid now1 now2 w = (w', inl e) → outbox w' = outbox w) ∧
  (∀ k br w, outbox (Borrow_save (Some k) br w).1 = outbox w) ∧
  (∀ uid k now w, outbox (CreateReturn uid k now w).1 = outbox w).
Proof.
  repeat split.
  - intros uid bid now1 now2 w w' r E.
    apply CreateBorrow_cases in E
      as [(e & ? & _)|(u & b & Hu & _ & _ & _ & _ & _ & ? & ->)]; [done|].
    simplify_eq. by eexists _, u.
  - intros uid bid now1 now2 w w' e E.
    by rewrite (failed_borrow_changes_nothing _ _ _ _ _ _ _ E).
  - intros uid k now w.
    destruct (CreateReturn uid k now w) as [w' r] eqn:E.
    apply CreateReturn_cases in E
      as [(e & _ & ->)|(u & br & b & _ & _ & _ & _ & _ & _ & ->)]; done.
Qed.

Lemma one_notification_per_borrow_witness :
  ∃ m u,
    outbox (CreateBorrow 1 1 100 101 test_world).1
    = outbox test_world ++ [m] ∧
    users (db test_world) !! 1 = Some u ∧
    mail_to m = email u ∧
    mail_due m = 101 + timedelta_days 14.
Proof.
  destruct one_notification_per_borrow as (Hsent & _).
  apply (Hsent 1 1 100 101 test_world
           (CreateBorrow 1 1 100 101 test_world).1
           (1, new_borrow 1 1 100 101)).
  vm_compute. reflexivity.
Defined.

(** ** The footprint of a return *)

(** C10. A successful CreateReturn rewrites three rows and nothing
    else: the borrow keeps its user, book, borrow date and due date,
    the book keeps its title and total copies, the user keeps name and
    address, and every other borrow, book and user, and the outbox, are
    untouched. *)
Theorem return_changes_only_its_fields uid k now w w' r :
  CreateReturn uid k now w = (w', inr r) →
  ∃ br b u br' b' u',
    borrows (db w) !! k = Some br ∧
    books (db w) !! book_id br = Some b ∧
    users (db w) !! user_id br = Some u ∧
    borrows (db w') !! k = Some br' ∧
    books (db w') !! book_id br = Some b' ∧
    users (db w') !! user_id br = Some u' ∧
    (user_id br' = user_id br ∧ book_id br' = book_id br ∧
     borrow_date br' = borrow_date br ∧ due_date br' = due_date br) ∧
    (title b' = title b ∧ total_copies b' = total_copies b) ∧
    (username u' = username u ∧ email u' = email u) ∧
    (∀ j, j ≠ k → borrows (db w') !! j = borrows (db w) !! j) ∧
    (∀ j, j ≠ book_id br → books (db w') !! j = books (db w) !! j) ∧
    (∀ j, j ≠ user_id br → users (db w') !! j = users (db w) !! j) ∧
    outbox w' = outbox w.
Proof.
  intros E. apply CreateReturn_cases in E
    as [(e & ? & _)|(u & br & b & Hu & Hbr & _ & Hown & Hb & ? & ->)]; [done|].
  simplify_eq.
  exists br, b, u, (close br now), (take_back b),
    (penalise u (due_date br) now).
  rd. rewrite !lookup_insert_eq.
  repeat split; try done.
  - unfold penalise. by destruct (due_date br <? now).
  - unfold penalise. by destruct (due_date br <? now).
  - intros j Hj. by rewrite lookup_insert_ne.
  - intros j Hj. by rewrite lookup_insert_ne.
  - intros j Hj. by rewrite lookup_insert_ne.
Qed.

Lemma return_changes_only_its_fields_witness :
  ∃ br b u br' b' u',
    borrows (db lent_world) !! 1 = Some br ∧
    books (db lent_world) !! book_id br = Some b ∧
    users (db lent_world) !! user_id br = Some u ∧
    borrows (db (CreateReturn 1 1 7 lent_world).1) !! 1 = Some br' ∧
    books (db (CreateReturn 1 1 7 lent_world).1) !! book_id br = Some b' ∧
    users (db (CreateReturn 1 1 7 lent_world).1) !! user_id br = Some u' ∧
    due_date br' = due_date br ∧ total_copies b' = total_copies b.
Proof.
  destruct (return_changes_only_its_fields 1 1 7 lent_world
              (CreateReturn 1 1 7 lent_world).1
              (1, close (mkBorrow 1 1 0 (timedelta_days 14) None) 7))
    as (br & b & u & br' & b' & u' & H1 & H2 & H3 & H4 & H5 & H6
        & (_ & _ & _ & Hdue) & (_ & Htotal) & _).
  { vm_compute. reflexivity. }
  exists br, b, u, br', b', u'. repeat split; done.
Defined.

(** ** Racing returns *)

(** A thread stepped twice in a row is the operation itself. *)
Lemma thread_runs_CreateReturn uid k now w :
  run_schedule [0; 0]%nat (w, [Received uid k now])
  = ((CreateReturn uid k now w).1,
     [Responded (CreateReturn uid k now w).2]).
Proof.
  unfold run_schedule, schedule_step, CreateReturn, ReturnView.create, bind.
  simpl. destruct (ReturnView.is_valid uid k w) as [w1 [e|v]]; simpl; [done|].
  by destruct (ReturnSerializer.save v now w1).
Qed.

(** Served one after the other, two returns of the same borrow give one
    success and one InvalidOrAlreadyReturned. *)
Example returns_in_sequence :
  run_schedule [0; 0; 1; 1]%nat
    (lent_world, [Received 1 1 100; Received 1 1 200])
  = (mkWorld (mkDB {[1 := testuser]} {[1 := test_book]}
                   {[1 := mkBorrow 1 1 0 (timedelta_days 14) (Some 100)]}) [],
     [Responded (inr (1, mkBorrow 1 1 0 (timedelta_days 14) (Some 100)));
      Responded (inl InvalidOrAlreadyReturned)]).
Proof. vm_compute. reflexivity. Qed.

(** C6. When both requests are validated before either is saved, both
    CreateReturn calls on the same open borrow succeed: [save] looks the
    borrow up again by id alone and does not look at [return_date].  The
    book ends up with one copy more than it has in total. *)
Theorem racing_returns_both_succeed :
  let st := run_schedule [0; 1; 0; 1]%nat
              (lent_world, [Received 1 1 100; Received 1 1 200]) in
  st.2 = [Responded (inr (1, mkBorrow 1 1 0 (timedelta_days 14) (Some 100)));
          Responded (inr (1, mkBorrow 1 1 0 (timedelta_days 14) (Some 200)))] ∧
  succeeded <$> st.2 = [true; true] ∧
  books (db st.1) !! 1 = Some (mkBook "Test Book" 5 6) ∧
  ¬ copies_in_bounds (db st.1).
Proof.
  repeat split; try (vm_compute; reflexivity).
  intros Hbounds.
  specialize (Hbounds 1 (mkBook "Test Book" 5 6)).
  unfold in_bounds in Hbounds. simpl in Hbounds.
  assert (0 <= 6 <= 5) as Habs by (apply Hbounds; vm_compute; reflexivity).
  lia.
Qed.

(** * Further properties of the lending code *)

(** ** Every way a return can end *)

Lemma failed_return_changes_nothing uid k now w w' e :
  CreateReturn uid k now w = (w', inl e) → w' = w.
Proof.
  intros E. apply CreateReturn_cases in E
    as [(e' & _ & ->)|(u & br & b & _ & _ & _ & _ & _ & ? & _)]; done.
Qed.

(** X1. An authenticated user who asks to return an open borrow of
    somebody else is refused with NotOwner, and nothing is written. *)
Theorem return_by_other_user_refused uid u k br now w :
  users (db w) !! uid = Some u →
  borrows (db w) !! k = Some br →
  return_date br = None →
  user_id br ≠ uid →
  CreateReturn uid k now w = (w, inl NotOwner).
Proof.
  intros Hu Hk Hopen Hother. destruct w as [[us bs brs] ob].
  rd in Hu. rd in Hk. unfold_ops. rd.
  rewrite Hu. rd. rewrite Hk. rd. rewrite Hopen.
  by rewrite bool_decide_eq_true_2.
Qed.

Lemma return_by_other_user_refused_witness :
  CreateReturn 1 1 50 two_readers_world = (two_readers_world, inl NotOwner).
Proof.
  apply (return_by_other_user_refused 1 testuser 1
           (mkBorrow 2 1 0 (timedelta_days 14) None)).
  - vm_compute. reflexivity.
  - vm_compute. reflexivity.
  - reflexivity.
  - simpl. lia.
Defined.

(** X2. CreateReturn succeeds exactly when the acting user exists, the
    borrow exists, is open and is theirs, and the row of its book
    exists; in every other case it fails and the world is the one it
    was given. *)
Theorem return_succeeds_iff uid k now w :
  ((∃ w' r, CreateReturn uid k now w = (w', inr r)) ↔
   (∃ u br b,
      users (db w) !! uid = Some u ∧ borrows (db w) !! k = Some br ∧
      return_date br = None ∧ user_id br = uid ∧
      books (db w) !! book_id br = Some b)) ∧
  (∀ w' e, CreateReturn uid k now w = (w', inl e) → w' = w).
Proof.
  split; [split|].
  - intros (w' & r & E). apply CreateReturn_cases in E
      as [(e & ? & _)|(u & br & b & Hu & Hbr & Hopen & Hown & Hb & _)];
      [done|].
    by exists u, br, b.
  - intros (u & br & b & Hu & Hk & Hopen & Hown & Hb).
    destruct w as [[us bs brs] ob]. rd in Hu. rd in Hk. rd in Hb.
    unfold_ops. rd. rewrite Hu. rd. rewrite Hk. rd. rewrite Hopen.
    rewrite bool_decide_eq_false_2 by (intros ?; done). rd.
    rewrite Hk. rd. rewrite Hb. rd. rewrite Hown, Hu. rd.
    by eexists _, _.
  - intros w' e. apply failed_return_changes_nothing.
Qed.

Lemma return_succeeds_iff_witness :
  ∃ w' r, CreateReturn 1 1 9 lent_world = (w', inr r).
Proof.
  apply (proj1 (return_succeeds_iff 1 1 9 lent_world)).
  exists testuser, (mkBorrow 1 1 0 (timedelta_days 14) None),
    (mkBook "Test Book" 5 4).
  repeat split; vm_compute; reflexivity.
Defined.

(** X3. CreateBorrow succeeds exactly when the acting user exists, the
    book exists, the user has fewer than 50 penalty points and fewer
    than 3 open borrows, the book has a copy available and the user's
    address passes the handler's checks. *)
Theorem borrow_succeeds_iff uid bid now1 now2 w :
  (∃ w' r, CreateBorrow uid bid now1 now2 w = (w', inr r)) ↔
  (∃ u b,
     users (db w) !! uid = Some u ∧ books (db w) !! bid = Some b ∧
     penalty_points u < 50 ∧ (active_borrows uid (db w) < 3)%nat ∧
     0 < available_copies b ∧ email_ok u = true).
Proof.
  split.
  - intros (w' & r & E). apply CreateBorrow_cases in E
      as [(e & ? & _)|(u & b & Hu & Hb & Hp & Ha & Hc & He & _)]; [done|].
    by exists u, b.
  - intros (u & b & Hu & Hb & Hp & Ha & Hc & He).
    destruct w as [[us bs brs] ob]. rd in Hu. rd in Hb. rd in Ha.
    unfold_ops. rd. rewrite Hu. rd. rewrite Hb. rd.
    rewrite (proj2 (Z.leb_gt _ _) Hp). rd.
    rewrite (proj2 (Nat.leb_gt _ _) Ha).
    rewrite (proj2 (Z.leb_gt _ _) Hc). rd. rewrite Hu. rd.
    unfold email_ok in He. apply andb_true_iff in He as [He1 He2].
    apply negb_true_iff in He1. rewrite He1, He2. rd.
    rewrite lookup_insert_eq. rd. by eexists _, _.
Qed.

Lemma borrow_succeeds_iff_witness :
  ∃ w' r, CreateBorrow 1 1 100 101 test_world = (w', inr r).
Proof.
  apply (borrow_succeeds_iff 1 1 100 101 test_world).
  exists testuser, test_book.
  split; [vm_compute; reflexivity|].
  split; [vm_compute; reflexivity|].
  split; [simpl; lia|].
  split; [vm_compute; lia|].
  split; [simpl; lia|vm_compute; reflexivity].
Defined.

(** ** The footprint of a borrow *)

(** X4. A successful CreateBorrow stores its borrow under a key no row
    had, for the acting user and the requested book, and otherwise
    rewrites one row only: users and existing borrows are as they were,
    so are all other books, and the borrowed book keeps its title and
    total copies. *)
Theorem borrow_changes_only_its_rows uid bid now1 now2 w w' r :
  CreateBorrow uid bid now1 now2 w = (w', inr r) →
  borrows (db w) !! r.1 = None ∧
  borrows (db w') !! r.1 = Some r.2 ∧
  user_id r.2 = uid ∧ book_id r.2 = bid ∧
  users (db w') = users (db w) ∧
  (∀ j, j ≠ r.1 → borrows (db w') !! j = borrows (db w) !! j) ∧
  (∀ j, j ≠ bid → books (db w') !! j = books (db w) !! j) ∧
  (∃ b b', books (db w) !! bid = Some b ∧ books (db w') !! bid = Some b' ∧
           title b' = title b ∧ total_copies b' = total_copies b).
Proof.
  intros E. apply CreateBorrow_cases in E
    as [(e & ? & _)|(u & b & _ & Hb & _ & _ & _ & _ & ? & ->)]; [done|].
  simplify_eq. rd. rewrite !lookup_insert_eq.
  repeat split; try done.
  - apply next_pk_fresh.
  - intros j Hj. by rewrite lookup_insert_ne.
  - intros j Hj. by rewrite lookup_insert_ne.
  - by exists b, (lend b).
Qed.

Lemma borrow_changes_only_its_rows_witness :
  borrows (db test_world) !! 1 = None ∧
  borrows (db (CreateBorrow 1 1 100 101 test_world).1) !! 1
  = Some (new_borrow 1 1 100 101).
Proof.
  destruct (borrow_changes_only_its_rows 1 1 100 101 test_world
              (CreateBorrow 1 1 100 101 test_world).1
              (1, new_borrow 1 1 100 101)) as (Hnew & Hrow & _).
  { vm_compute. reflexivity. }
  split; [exact Hnew | exact Hrow].
Defined.

(** ** Copies are conserved *)

Lemma handle_conserves_copies w r bid b :
  books (db w) !! bid = Some b →
  ∃ b', books (db (handle w r)) !! bid = Some b' ∧
        available_copies b' + Z.of_nat (on_loan bid (db (handle w r)))
        = available_copies b + Z.of_nat (on_loan bid (db w)) ∧
        total_copies b' = total_copies b ∧ title b' = title b.
Proof.
  intros Hbid. destruct r as [uid j now1 now2|uid k now]; simpl.
  - destruct (CreateBorrow uid j now1 now2 w) as [w' r] eqn:E.
    apply CreateBorrow_cases in E
      as [(e & _ & ->)|(u & bj & _ & Hj & _ & _ & _ & _ & _ & ->)];
      [by exists b|].
    destruct w as [[us bs brs] ob]. rd in Hbid. rd in Hj. rd.
    rewrite (on_loan_insert_new us bs) by apply next_pk_fresh.
    unfold new_borrow at 1. rd.
    destruct (decide (j = bid)) as [->|Hne].
    + simplify_eq. exists (lend b). rewrite lookup_insert_eq.
      rewrite decide_True by done. simpl. repeat split; try done. lia.
    + exists b. rewrite lookup_insert_ne by done.
      rewrite decide_False by (intros [? _]; done). done.
  - destruct (CreateReturn uid k now w) as [w' r] eqn:E.
    apply CreateReturn_cases in E
      as [(e & _ & ->)|(u & br & bj & _ & Hk & Hopen & _ & Hj & _ & ->)];
      [by exists b|].
    destruct w as [[us bs brs] ob]. rd in Hbid. rd in Hj. rd in Hk. rd.
    rewrite (on_loan_close us bs) by done.
    destruct (decide (book_id br = bid)) as [Heq|Hne].
    + rewrite Heq in *. simplify_eq. exists (take_back b).
      rewrite lookup_insert_eq. simpl. repeat split; try done. lia.
    + exists b. rewrite lookup_insert_ne by done. repeat split; try done. lia.
Qed.

(** X5. Whatever requests are served one after another, every book row
    stays, keeps its title and total copies, and the sum of its
    available copies and its open borrows stays what it was: a borrow
    moves one copy from the shelf to a reader and a return moves it
    back. *)
Theorem copies_are_conserved rs w bid b :
  books (db w) !! bid = Some b →
  ∃ b', books (db (run rs w)) !! bid = Some b' ∧
        available_copies b' + Z.of_nat (on_loan bid (db (run rs w)))
        = available_copies b + Z.of_nat (on_loan bid (db w)) ∧
        total_copies b' = total_copies b ∧ title b' = title b.
Proof.
  unfold run. revert w b.
  induction rs as [|r rs IH]; intros w b Hb; simpl; [by exists b|].
  destruct (handle_conserves_copies w r bid b Hb)
    as (b1 & Hb1 & Hsum1 & Htot1 & Htit1).
  destruct (IH _ _ Hb1) as (b2 & Hb2 & Hsum2 & Htot2 & Htit2).
  exists b2. repeat split; [done|lia|congruence|congruence].
Qed.

Lemma copies_are_conserved_witness :
  ∃ b', books (db (run [BorrowRequest 1 1 100 101; BorrowRequest 1 1 200 201;
                        ReturnRequest 1 2 300] test_world)) !! 1 = Some b' ∧
        available_copies b'
        + Z.of_nat (on_loan 1 (db (run [BorrowRequest 1 1 100 101;
                                        BorrowRequest 1 1 200 201;
                                        ReturnRequest 1 2 300] test_world)))
        = 5.
Proof.
  destruct (copies_are_conserved
              [BorrowRequest 1 1 100 101; BorrowRequest 1 1 200 201;
               ReturnRequest 1 2 300] test_world 1 test_book)
    as (b' & Hb' & Hsum & _).
  { vm_compute. reflexivity. }
  exists b'. split; [exact Hb'|].
  rewrite Hsum. vm_compute. reflexivity.
Defined.

(** ** The cap on open borrows *)

Lemma active_borrows_insert_new us bs us' bs' (brs : gmap Z Borrow) k br uid :
  brs !! k = None →
  active_borrows uid (mkDB us' bs' (<[k := br]> brs))
  = (if decide (user_id br = uid ∧ return_date br = None)
     then S (active_borrows uid (mkDB us bs brs))
     else active_borrows uid (mkDB us bs brs)).
Proof.
  intros Hk. unfold active_borrows. rd.
  by rewrite size_filter_insert_new.
Qed.

Lemma active_borrows_close us bs us' bs' (brs : gmap Z Borrow) k br now uid :
  brs !! k = Some br → return_date br = None →
  Z.of_nat (active_borrows uid (mkDB us' bs' (<[k := close br now]> brs)))
  = Z.of_nat (active_borrows uid (mkDB us bs brs))
    - (if decide (user_id br = uid) then 1 else 0).
Proof.
  intros Hk Hopen. unfold active_borrows. rd.
  set (P := fun kv : Z * Borrow => user_id kv.2 = uid ∧ return_date kv.2 = None).
  assert (¬ P (k, close br now)) as Hclosed by (intros [_ ?]; done).
  case_decide as Hj.
  - rewrite <- (size_filter_insert_drop P brs k br (close br now)); [lia|done..].
  - rewrite (size_filter_insert_same P brs k br); [lia|done| |done].
    intros [? _]. done.
Qed.

Lemma handle_keeps_cap w r :
  (∀ uid, (active_borrows uid (db w) <= 3)%nat) →
  ∀ uid, (active_borrows uid (db (handle w r)) <= 3)%nat.
Proof.
  intros Hcap uid. destruct r as [uid' bid now1 now2|uid' k now]; simpl.
  - destruct (CreateBorrow uid' bid now1 now2 w) as [w' r] eqn:E.
    apply CreateBorrow_cases in E
      as [(e & _ & ->)|(u & b & _ & _ & _ & Ha & _ & _ & _ & ->)]; [done|].
    destruct w as [[us bs brs] ob]. rd in Ha. rd.
    rewrite (active_borrows_insert_new us bs) by apply next_pk_fresh.
    unfold new_borrow at 1. rd. specialize (Hcap uid). rd in Hcap.
    case_decide as Hd; [|done]. destruct Hd as [-> _]. lia.
  - destruct (CreateReturn uid' k now w) as [w' r] eqn:E.
    apply CreateReturn_cases in E
      as [(e & _ & ->)|(u & br & b & _ & Hk & Hopen & _ & _ & _ & ->)];
      [done|].
    destruct w as [[us bs brs] ob]. rd in Hk. rd.
    pose proof (active_borrows_close us bs
                  (<[uid':=penalise u (due_date br) now]> us)
                  (<[book_id br:=take_back b]> bs) brs k br now uid Hk Hopen)
      as Hc.
    specialize (Hcap uid). rd in Hcap. case_decide; lia.
Qed.

(** X6. No user ever holds more than three open borrows: if that is so
    to begin with, it is so after any sequence of CreateBorrow and
    CreateReturn requests served one after another. *)
Theorem at_most_three_open_borrows rs w :
  (∀ uid, (active_borrows uid (db w) <= 3)%nat) →
  ∀ uid, (active_borrows uid (db (run rs w)) <= 3)%nat.
Proof.
  unfold run. revert w.
  induction rs as [|r rs IH]; intros w Hcap; simpl; [done|].
  by apply IH, handle_keeps_cap.
Qed.

Lemma at_most_three_open_borrows_witness :
  (active_borrows 1
     (db (run [BorrowRequest 1 1 1 1; BorrowRequest 1 1 2 2;
               BorrowRequest 1 1 3 3; BorrowRequest 1 1 4 4] test_world))
   <= 3)%nat.
Proof.
  apply (at_most_three_open_borrows
           [BorrowRequest 1 1 1 1; BorrowRequest 1 1 2 2;
            BorrowRequest 1 1 3 3; BorrowRequest 1 1 4 4] test_world).
  intros uid. unfold active_borrows, test_world. simpl.
  rewrite map_filter_empty, map_size_empty. lia.
Defined.

Example fourth_borrow_refused :
  (CreateBorrow 1 1 4 4
     (run [BorrowRequest 1 1 1 1; BorrowRequest 1 1 2 2;
           BorrowRequest 1 1 3 3] test_world)).2
  = inl BorrowLimitExceeded.
Proof. vm_compute. reflexivity. Qed.

(** ** Penalty points only grow *)

Lemma penalise_grows u due now :
  penalty_points u <= penalty_points (penalise u due now) ∧
  username (penalise u due now) = username u ∧
  email (penalise u due now) = email u.
Proof.
  unfold penalise. destruct (due <? now); simpl; repeat split; lia.
Qed.

Lemma handle_grows_penalty w r uid u :
  users (db w) !! uid = Some u →
  ∃ u', users (db (handle w r)) !! uid = Some u' ∧
        penalty_points u <= penalty_points u' ∧
        username u' = username u ∧ email u' = email u.
Proof.
  intros Hu. destruct r as [uid' bid now1 now2|uid' k now]; simpl.
  - destruct (CreateBorrow uid' bid now1 now2 w) as [w' r] eqn:E.
    apply CreateBorrow_cases in E
      as [(e & _ & ->)|(u1 & b & _ & _ & _ & _ & _ & _ & _ & ->)];
      exists u; repeat split; done || lia.
  - destruct (CreateReturn uid' k now w) as [w' r] eqn:E.
    apply CreateReturn_cases in E
      as [(e & _ & ->)|(u1 & br & b & Hu1 & _ & _ & _ & _ & _ & ->)];
      [exists u; repeat split; done || lia|].
    rd. destruct (decide (uid' = uid)) as [->|Hne].
    + simplify_eq. exists (penalise u (due_date br) now).
      rewrite lookup_insert_eq. split; [done|]. apply penalise_grows.
    + exists u. rewrite lookup_insert_ne by done. repeat split; done || lia.
Qed.

Lemma run_grows_penalty rs w uid u :
  users (db w) !! uid = Some u →
  ∃ u', users (db (run rs w)) !! uid = Some u' ∧
        penalty_points u <= penalty_points u' ∧
        username u' = username u ∧ email u' = email u.
Proof.
  unfold run. revert w u.
  induction rs as [|r rs IH]; intros w u Hu; simpl;
    [exists u; repeat split; done || lia|].
  destruct (handle_grows_penalty w r uid u Hu) as (u1 & Hu1 & Hp1 & Hn1 & He1).
  destruct (IH _ _ Hu1) as (u2 & Hu2 & Hp2 & Hn2 & He2).
  exists u2. repeat split; [done|lia|congruence|congruence].
Qed.

Lemma handle_adds_no_user w r uid :
  users (db w) !! uid = None → users (db (handle w r)) !! uid = None.
Proof.
  intros Hu. destruct r as [uid' bid now1 now2|uid' k now]; simpl.
  - destruct (CreateBorrow uid' bid now1 now2 w) as [w' r] eqn:E.
    apply CreateBorrow_cases in E
      as [(e & _ & ->)|(u1 & b & _ & _ & _ & _ & _ & _ & _ & ->)]; done.
  - destruct (CreateReturn uid' k now w) as [w' r] eqn:E.
    apply CreateReturn_cases in E
      as [(e & _ & ->)|(u1 & br & b & Hu1 & _ & _ & _ & _ & _ & ->)];
      [done|].
    rd. rewrite lookup_insert_ne; [done|]. intros ->. congruence.
Qed.

(** X7. Penalty points never go down and are never reset: after any
    sequence of requests every user row is still there with the same
    name and address and at least the points it had, and no user row
    has been added. *)
Theorem penalty_points_never_decrease rs w uid :
  (∀ u, users (db w) !! uid = Some u →
        ∃ u', users (db (run rs w)) !! uid = Some u' ∧
              penalty_points u <= penalty_points u' ∧
              username u' = username u ∧ email u' = email u) ∧
  (users (db w) !! uid = None → users (db (run rs w)) !! uid = None).
Proof.
  split; [intros u; apply run_grows_penalty|].
  unfold run. revert w.
  induction rs as [|r rs IH]; intros w Hu; simpl; [done|].
  by apply IH, handle_adds_no_user.
Qed.

Lemma penalty_points_never_decrease_witness :
  ∃ u', users (db (run [ReturnRequest 1 1 (timedelta_days 20 + 7);
                        BorrowRequest 1 1 5 6] overdue_world)) !! 1 = Some u' ∧
        0 <= penalty_points u'.
Proof.
  destruct (proj1 (penalty_points_never_decrease
                     [ReturnRequest 1 1 (timedelta_days 20 + 7);
                      BorrowRequest 1 1 5 6] overdue_world 1) testuser)
    as (u' & Hu' & Hp & _).
  { vm_compute. reflexivity. }
  exists u'. split; [exact Hu'|exact Hp].
Defined.

(** X8. A user who has reached 50 penalty points is barred for good:
    whatever requests are served in between, each later CreateBorrow of
    theirs fails, with PenaltyLimitExceeded when the book exists and
    BookNotFound when it does not, and writes nothing. *)
Theorem barred_user_stays_barred rs w uid u bid now1 now2 :
  users (db w) !! uid = Some u →
  50 <= penalty_points u →
  ∃ e, CreateBorrow uid bid now1 now2 (run rs w) = (run rs w, inl e) ∧
       (e = PenaltyLimitExceeded ∧ is_Some (books (db (run rs w)) !! bid) ∨
        e = BookNotFound ∧ books (db (run rs w)) !! bid = None).
Proof.
  intros Hu Hp.
  destruct (run_grows_penalty rs w uid u Hu) as (u' & Hu' & Hp' & _).
  destruct (run rs w) as [[us bs brs] ob]. rd in Hu'. rd.
  unfold_ops. rd. rewrite Hu'. rd.
  destruct (bs !! bid) as [b|] eqn:Hb; rd.
  - rewrite (proj2 (Z.leb_le 50 (penalty_points u'))) by lia.
    eexists. split; [done|]. left. eauto.
  - eexists. split; [done|]. by right.
Qed.

Lemma barred_user_stays_barred_witness :
  ∃ e, CreateBorrow 1 1 7 8 (run [BorrowRequest 1 1 5 6] barred_world)
       = (run [BorrowRequest 1 1 5 6] barred_world, inl e) ∧
       (e = PenaltyLimitExceeded ∧
        is_Some (books (db (run [BorrowRequest 1 1 5 6] barred_world)) !! 1) ∨
        e = BookNotFound ∧
        books (db (run [BorrowRequest 1 1 5 6] barred_world)) !! 1 = None).
Proof.
  apply (barred_user_stays_barred [BorrowRequest 1 1 5 6] barred_world 1
           (mkUser "testuser" EmptyString 50)).
  - vm_compute. reflexivity.
  - simpl. lia.
Defined.

(** ** Borrow rows over time *)

Lemma handle_keeps_borrow_row w r k br :
  borrows (db w) !! k = Some br →
  ∃ br', borrows (db (handle w r)) !! k = Some br' ∧
         user_id br' = user_id br ∧ book_id br' = book_id br ∧
         borrow_date br' = borrow_date br ∧ due_date br' = due_date br ∧
         (return_date br' = return_date br ∨
          return_date br = None ∧ is_Some (return_date br')).
Proof.
  intros Hk. destruct r as [uid bid now1 now2|uid j now]; simpl.
  - destruct (CreateBorrow uid bid now1 now2 w) as [w' r] eqn:E.
    apply CreateBorrow_cases in E
      as [(e & _ & ->)|(u & b & _ & _ & _ & _ & _ & _ & _ & ->)];
      [exists br; repeat split; auto|].
    rd. exists br. rewrite lookup_insert_ne; [repeat split; auto|].
    intros Heq. pose proof (next_pk_fresh (borrows (db w))) as Hf.
    rewrite Heq in Hf. congruence.
  - destruct (CreateReturn uid j now w) as [w' r] eqn:E.
    apply CreateReturn_cases in E
      as [(e & _ & ->)|(u & br1 & b & _ & Hj & Hopen & _ & _ & _ & ->)];
      [exists br; repeat split; auto|].
    rd. destruct (decide (j = k)) as [->|Hne].
    + simplify_eq. exists (close br now). rewrite lookup_insert_eq.
      repeat split; try done. right. split; [done|]. by eexists.
    + exists br. rewrite lookup_insert_ne by done. repeat split; auto.
Qed.

(** X9. Borrow rows are never deleted or re-pointed: after any sequence
    of requests a borrow still has its user, book, borrow date and due
    date, and its return date is either what it was or was unset and
    is now set. *)
Theorem borrow_rows_only_ever_close rs w k br :
  borrows (db w) !! k = Some br →
  ∃ br', borrows (db (run rs w)) !! k = Some br' ∧
         user_id br' = user_id br ∧ book_id br' = book_id br ∧
         borrow_date br' = borrow_date br ∧ due_date br' = due_date br ∧
         (return_date br' = return_date br ∨
          return_date br = None ∧ is_Some (return_date br')).
Proof.
  unfold run. revert w br.
  induction rs as [|r rs IH]; intros w br Hk; simpl;
    [exists br; repeat split; auto|].
  destruct (handle_keeps_borrow_row w r k br Hk)
    as (br1 & Hk1 & Hu1 & Hb1 & Hd1 & Hdue1 & Hr1).
  destruct (IH _ _ Hk1) as (br2 & Hk2 & Hu2 & Hb2 & Hd2 & Hdue2 & Hr2).
  exists br2. repeat split; try congruence.
  destruct Hr1 as [Hr1|[Hr1 Hs1]], Hr2 as [Hr2|[Hr2 Hs2]].
  - left. congruence.
  - right. split; [congruence|done].
  - right. split; [done|]. by rewrite Hr2.
  - right. done.
Qed.

Lemma borrow_rows_only_ever_close_witness :
  ∃ br', borrows (db (run [BorrowRequest 1 1 5 6; ReturnRequest 1 1 9]
                          lent_world)) !! 1 = Some br' ∧
         due_date br' = timedelta_days 14.
Proof.
  destruct (borrow_rows_only_ever_close
              [BorrowRequest 1 1 5 6; ReturnRequest 1 1 9] lent_world 1
              (mkBorrow 1 1 0 (timedelta_days 14) None))
    as (br' & Hk & _ & _ & _ & Hdue & _).
  { vm_compute. reflexivity. }
  exists br'. split; [exact Hk|exact Hdue].
Defined.

(** ** Penalties count whole days *)

(** X10. A successful return made [n] whole days and a fraction after
    the due date costs exactly [2 * n] points; in particular a return
    less than 24 hours late costs nothing. *)
Theorem penalty_counts_whole_days uid k now w w' r br u n :
  CreateReturn uid k now w = (w', inr r) →
  borrows (db w) !! k = Some br →
  users (db w) !! uid = Some u →
  0 <= n →
  due_date br + n * 86400000000 <= now < due_date br + (n + 1) * 86400000000 →
  ∃ u', users (db w') !! uid = Some u' ∧
        penalty_points u' = penalty_points u + 2 * n.
Proof.
  intros E Hk Hu Hn Hnow. apply CreateReturn_cases in E
    as [(e & ? & _)|(u1 & br1 & b & Hu1 & Hk1 & _ & _ & _ & _ & ->)]; [done|].
  assert (u1 = u) as -> by congruence.
  assert (br1 = br) as -> by congruence.
  rd. exists (penalise u (due_date br) now).
  rewrite lookup_insert_eq. split; [done|].
  unfold penalise.
  destruct (due_date br <? now) eqn:Hlate; simpl.
  - assert (days (now - due_date br) = n) as ->; [|lia].
    unfold days. symmetry.
    apply (Z.div_unique_pos _ _ n (now - due_date br - n * 86400000000)); lia.
  - apply Z.ltb_ge in Hlate. nia.
Qed.

Lemma penalty_counts_whole_days_witness :
  ∃ u', users (db (CreateReturn 1 1 (timedelta_days 15 - 1) overdue_world).1)
          !! 1 = Some u' ∧
        penalty_points u' = penalty_points testuser + 2 * 0.
Proof.
  apply (penalty_counts_whole_days 1 1 (timedelta_days 15 - 1) overdue_world
           (CreateReturn 1 1 (timedelta_days 15 - 1) overdue_world).1
           (1, close (mkBorrow 1 1 0 (timedelta_days 14) None)
                     (timedelta_days 15 - 1))
           (mkBorrow 1 1 0 (timedelta_days 14) None) testuser 0).
  - vm_compute. reflexivity.
  - vm_compute. reflexivity.
  - vm_compute. reflexivity.
  - lia.
  - unfold timedelta_days. simpl. lia.
Defined.

(** ** What a user sees listed *)

(** X11. The listing of open borrows follows the two operations: a
    successful CreateBorrow adds exactly its new row to the borrower's
    listing, a successful CreateReturn removes exactly the returned row
    from the owner's, and the listing of every other user is unchanged
    by either. *)
Theorem listing_follows_borrow_and_return :
  (∀ uid bid now1 now2 w w' r,
     CreateBorrow uid bid now1 now2 w = (w', inr r) →
     BorrowView_get_queryset uid (db w')
     = <[r.1 := r.2]> (BorrowView_get_queryset uid (db w)) ∧
     BorrowView_get_queryset uid (db w) !! r.1 = None ∧
     ∀ other, other ≠ uid →
       BorrowView_get_queryset other (db w')
       = BorrowView_get_queryset other (db w)) ∧
  (∀ uid k now w w' r,
     CreateReturn uid k now w = (w', inr r) →
     BorrowView_get_queryset uid (db w')
     = delete k (BorrowView_get_queryset uid (db w)) ∧
     is_Some (BorrowView_get_queryset uid (db w) !! k) ∧
     ∀ other, other ≠ uid →
       BorrowView_get_queryset other (db w')
       = BorrowView_get_queryset other (db w)).
Proof.
  split.
  - intros uid bid now1 now2 w w' r E. apply CreateBorrow_cases in E
      as [(e & ? & _)|(u & b & _ & _ & _ & _ & _ & _ & ? & ->)]; [done|].
    simplify_eq. unfold BorrowView_get_queryset. rd.
    pose proof (next_pk_fresh (borrows (db w))) as Hf.
    repeat split.
    + by rewrite map_filter_insert_True.
    + apply map_lookup_filter_None. by left.
    + intros other Hne. rewrite map_filter_insert_not'; [done| |].
      * intros [? _]. done.
      * intros y Hy. congruence.
  - intros uid k now w w' r E. apply CreateReturn_cases in E
      as [(e & ? & _)|(u & br & b & _ & Hk & Hopen & Hown & _ & ? & ->)];
      [done|].
    simplify_eq. unfold BorrowView_get_queryset. rd.
    repeat split.
    + rewrite map_filter_insert_False by (intros [_ ?]; done).
      apply map_filter_delete.
    + exists br. by apply map_lookup_filter_Some.
    + intros other Hne. rewrite map_filter_insert_not'; [done| |].
      * intros [_ ?]. done.
      * intros y Hy [Hu _]. by simplify_eq.
Qed.

Lemma listing_follows_borrow_and_return_witness :
  BorrowView_get_queryset 1 (db (CreateReturn 1 1 9 lent_world).1)
  = delete 1 (BorrowView_get_queryset 1 (db lent_world)).
Proof.
  destruct listing_follows_borrow_and_return as [_ Hret].
  apply (Hret 1 1 9 lent_world (CreateReturn 1 1 9 lent_world).1
           (1, close (mkBorrow 1 1 0 (timedelta_days 14) None) 9)).
  vm_compute. reflexivity.
Defined.

(** ** The catalogue *)

(** X12. [BookSerializer.validate] does what its docstring says, on the
    counts a request would leave the book with (a count left out is the
    instance's, or 0 without an instance): it returns the data
    untouched exactly when both are non-negative and the available
    copies do not exceed the total, reports a negative count first, and
    an excess otherwise. *)
Theorem book_validation_contract instance data :
  let total :=
    default (from_option total_copies 0 instance) (data_total_copies data) in
  let available :=
    default (from_option available_copies 0 instance)
            (data_available_copies data) in
  (BookSerializer.validate instance data = inr data ↔
     0 <= available <= total) ∧
  (BookSerializer.validate instance data = inl NegativeCopies ↔
     total < 0 ∨ available < 0) ∧
  (BookSerializer.validate instance data = inl AvailableExceedsTotal ↔
     0 <= total < available) ∧
  (∀ d, BookSerializer.validate instance data = inr d → d = data).
Proof.
  intros total available. unfold BookSerializer.validate.
  fold total. fold available.
  destruct (total <? 0) eqn:Ht; [apply Z.ltb_lt in Ht|apply Z.ltb_ge in Ht];
    simpl.
  { repeat split; intros; simplify_eq; done || lia || (left; lia). }
  destruct (available <? 0) eqn:Ha;
    [apply Z.ltb_lt in Ha|apply Z.ltb_ge in Ha]; simpl.
  { repeat split; intros; simplify_eq; done || lia || (right; lia). }
  destruct (total <? available) eqn:Hx;
    [apply Z.ltb_lt in Hx|apply Z.ltb_ge in Hx];
    repeat split; intros; simplify_eq; done || lia.
Qed.

Lemma book_validation_contract_witness :
  BookSerializer.validate (Some (mkBook "Test Book" 5 4))
    (mkBookData None None (Some 5))
  = inr (mkBookData None None (Some 5)).
Proof.
  apply (proj1 (book_validation_contract (Some (mkBook "Test Book" 5 4))
                  (mkBookData None None (Some 5)))).
  simpl. lia.
Defined.

Example partial_update_checked_against_instance :
  BookSerializer.validate (Some (mkBook "Test Book" 5 4))
    (mkBookData None (Some 3) None) = inl AvailableExceedsTotal ∧
  BookSerializer.validate None (mkBookData None None (Some 1))
    = inl AvailableExceedsTotal ∧
  BookSerializer.validate None (mkBookData None (Some 2) None)
    = inr (mkBookData None (Some 2) None).
Proof. repeat split. Qed.

Lemma validate_submitted_book b :
  (∃ d, BookSerializer.validate None
          (mkBookData (Some (title b)) (Some (total_copies b))
                      (Some (available_copies b))) = inr d) ↔
  0 <= available_copies b <= total_copies b.
Proof.
  unfold BookSerializer.validate. simpl.
  destruct (total_copies b <? 0) eqn:Ht;
    [apply Z.ltb_lt in Ht|apply Z.ltb_ge in Ht]; simpl.
  { split; [intros [d ?]; done|lia]. }
  destruct (available_copies b <? 0) eqn:Ha;
    [apply Z.ltb_lt in Ha|apply Z.ltb_ge in Ha]; simpl.
  { split; [intros [d ?]; done|lia]. }
  destruct (total_copies b <? available_copies b) eqn:Hx;
    [apply Z.ltb_lt in Hx|apply Z.ltb_ge in Hx].
  - split; [intros [d ?]; done|lia].
  - split; [lia|]. intros _. by eexists.
Qed.

(** A creation either fails and changes nothing, or passed every
    check and stored the book. *)
Lemma book_creation_cases is_staff shelves form w w' r :
  BookCreateUpdateView.create is_staff shelves form w = (w', r) →
  (∃ e, r = inl e ∧ w' = w) ∨
  (∃ b ka kc,
     is_staff = true ∧ form_book form = Some b ∧
     form_author_id form = Some ka ∧ is_Some (authors shelves !! ka) ∧
     form_category_id form = Some kc ∧
     is_Some (categories shelves !! kc) ∧
     0 <= available_copies b <= total_copies b ∧
     r = inr (next_pk (books (db w)), b) ∧
     w' = mkWorld (mkDB (users (db w))
                        (<[next_pk (books (db w)) := b]> (books (db w)))
                        (borrows (db w)))
                  (outbox w)).
Proof.
  unfold BookCreateUpdateView.create, IsAdminOrReadOnly.has_permission,
    BookSerializer_author_id_field, BookSerializer_category_id_field.
  assert (bool_decide (POST ∈ SAFE_METHODS) = false) as -> by reflexivity.
  destruct is_staff; simpl; [|intros [= <- <-]; left; by eexists].
  destruct (form_book form) as [b|]; [|intros [= <- <-]; left; by eexists].
  destruct (form_author_id form) as [ka|];
    [|intros [= <- <-]; left; by eexists].
  destruct (authors shelves !! ka) as [a|] eqn:Ha;
    [|intros [= <- <-]; left; by eexists].
  destruct (form_category_id form) as [kc|];
    [|intros [= <- <-]; left; by eexists].
  destruct (categories shelves !! kc) as [c|] eqn:Hc;
    [|intros [= <- <-]; left; by eexists].
  destruct (BookSerializer.validate None _) as [e|d] eqn:E;
    intros [= <- <-]; [left; by eexists|].
  right. exists b, ka, kc.
  assert (0 <= available_copies b <= total_copies b)
    by (apply validate_submitted_book; by eexists).
  rewrite Ha, Hc. repeat split; done || lia || by eexists.
Qed.

(** X13. A creation request stores a book exactly when the requester
    is staff, the title and counts pass their fields, [author_id] and
    [category_id] each name a row that exists, and the counts satisfy
    [0 <= available_copies <= total_copies].  The book is then stored
    under a key no book had and nothing else changes.  A request from a
    user without the staff flag is refused with PermissionDenied, and
    every failing request leaves the world as it was. *)
Theorem book_creation_gate is_staff shelves form w :
  let r := BookCreateUpdateView.create is_staff shelves form w in
  ((∃ kb, r.2 = inr kb) ↔
   is_staff = true ∧
   ∃ b ka kc,
     form_book form = Some b ∧
     form_author_id form = Some ka ∧ is_Some (authors shelves !! ka) ∧
     form_category_id form = Some kc ∧
     is_Some (categories shelves !! kc) ∧
     0 <= available_copies b <= total_copies b) ∧
  (∀ k b, r.2 = inr (k, b) →
     form_book form = Some b ∧
     k = next_pk (books (db w)) ∧ books (db w) !! k = None ∧
     books (db r.1) = <[k := b]> (books (db w)) ∧
     users (db r.1) = users (db w) ∧ borrows (db r.1) = borrows (db w) ∧
     outbox r.1 = outbox w) ∧
  (is_staff = false → r = (w, inl PermissionDenied)) ∧
  (∀ e, r.2 = inl e → r.1 = w).
Proof.
  cbn zeta.
  destruct (BookCreateUpdateView.create is_staff shelves form w)
    as [w' r] eqn:E.
  pose proof (book_creation_cases _ _ _ _ _ _ E) as Hcases.
  split; [split|split; [|split]].
  - intros [kb Hkb]. simpl in Hkb.
    destruct Hcases
      as [(e & -> & _)|(b & ka & kc & Hs & Hf & Ha & Hae & Hc & Hce & Hb & _)];
      [done|].
    split; [done|]. by exists b, ka, kc.
  - intros (-> & b & ka & kc & Hf & Ha & [a Hae] & Hc & [c Hce] & Hb).
    unfold BookCreateUpdateView.create, IsAdminOrReadOnly.has_permission,
      BookSerializer_author_id_field, BookSerializer_category_id_field in E.
    assert (bool_decide (POST ∈ SAFE_METHODS) = false) as Hpost
      by reflexivity.
    rewrite Hpost, Hf, Ha, Hae, Hc, Hce in E. simpl in E.
    destruct (proj2 (validate_submitted_book b) Hb) as [d Hd].
    rewrite Hd in E. injection E as <- <-. by eexists.
  - intros k b Hr. simpl in Hr.
    destruct Hcases
      as [(e & -> & _)|(b' & ka & kc & _ & Hf & _ & _ & _ & _ & _ & -> & ->)];
      [done|].
    injection Hr as <- <-. rd. repeat split; try done.
    apply next_pk_fresh.
  - intros ->.
    unfold BookCreateUpdateView.create in E. simpl in E. by injection E as <- <-.
  - intros e Hr. simpl in Hr. simpl.
    destruct Hcases as [(e' & _ & ->)|(b & ka & kc & _ & _ & _ & _ & _ & _ & _
                                       & -> & _)]; done.
Qed.

Lemma book_creation_gate_witness :
  ∃ kb, (BookCreateUpdateView.create true test_shelves
           (new_book_form test_book) empty_library).2 = inr kb.
Proof.
  apply (proj1 (book_creation_gate true test_shelves
                  (new_book_form test_book) empty_library)).
  split; [reflexivity|].
  exists test_book, 1, 1.
  split; [reflexivity|]. split; [reflexivity|].
  split; [eexists; vm_compute; reflexivity|].
  split; [reflexivity|].
  split; [eexists; vm_compute; reflexivity|].
  simpl. lia.
Defined.

(** A request that names an author who does not exist is refused,
    whoever sends it. *)
Example book_without_author_refused :
  BookCreateUpdateView.create true (mkShelves ∅ {[1 := mkCategory "Fiction"]})
    (new_book_form test_book) empty_library
  = (empty_library, inl FieldRejected).
Proof. vm_compute. reflexivity. Qed.

Lemma on_loan_of_missing_book d j :
  refs_ok d → books d !! j = None → on_loan j d = 0%nat.
Proof.
  intros Hrefs Hj. unfold on_loan.
  apply map_size_empty_iff, map_empty_filter.
  intros k br Hk [Hb _]. simpl in Hb.
  destruct (Hrefs k br Hk) as [b Hsome]. congruence.
Qed.

Lemma handle_keeps_refs w r : refs_ok (db w) → refs_ok (db (handle w r)).
Proof.
  intros Hrefs. destruct r as [uid bid now1 now2|uid k now]; simpl.
  - destruct (CreateBorrow uid bid now1 now2 w) as [w' r] eqn:E.
    apply CreateBorrow_cases in E
      as [(e & _ & ->)|(u & b & _ & Hb & _ & _ & _ & _ & _ & ->)]; [done|].
    unfold refs_ok. rd. apply map_Forall_insert_2.
    + unfold new_borrow. rd. rewrite lookup_insert_eq. by eexists.
    + intros j br Hj. destruct (Hrefs j br Hj) as [bj Hbj].
      destruct (decide (bid = book_id br)) as [->|Hne].
      * rewrite lookup_insert_eq. by eexists.
      * rewrite lookup_insert_ne by done. by eexists.
  - destruct (CreateReturn uid k now w) as [w' r] eqn:E.
    apply CreateReturn_cases in E
      as [(e & _ & ->)|(u & br & b & _ & Hk & _ & _ & Hb & _ & ->)]; [done|].
    unfold refs_ok. rd. apply map_Forall_insert_2.
    + unfold close. rd. rewrite lookup_insert_eq. by eexists.
    + intros j brj Hj. destruct (Hrefs j brj Hj) as [bj Hbj].
      destruct (decide (book_id br = book_id brj)) as [->|Hne].
      * rewrite lookup_insert_eq. by eexists.
      * rewrite lookup_insert_ne by done. by eexists.
Qed.

Lemma serve_keeps_ledger w r :
  ledger_ok (db w) ∧ refs_ok (db w) →
  ledger_ok (db (serve w r)) ∧ refs_ok (db (serve w r)).
Proof.
  intros [Hok Hrefs]. destruct r as [is_staff shelves form|r]; simpl.
  - destruct (BookCreateUpdateView.create is_staff shelves form w)
      as [w' r] eqn:E.
    apply book_creation_cases in E
      as [(e & _ & ->)|(b & ka & kc & _ & _ & _ & _ & _ & _ & Hb & _ & ->)];
      [done|].
    pose proof (next_pk_fresh (books (db w))) as Hnew.
    destruct w as [[us bs brs] ob]. rd in Hnew. rd in Hok. rd in Hrefs.
    rd. split.
    + intros j bj Hj. rd in Hj.
      apply lookup_insert_Some in Hj as [[<- <-]|[Hne Hj]].
      * pose proof (on_loan_of_missing_book (mkDB us bs brs) _ Hrefs Hnew)
          as Hz.
        unfold on_loan in *. rd in Hz. rd. rewrite Hz. simpl. lia.
      * exact (Hok j bj Hj).
    + intros j br Hj. rd in Hj. destruct (Hrefs j br Hj) as [bj Hbj].
      rd. rd in Hbj.
      destruct (decide (next_pk bs = book_id br)) as [Heq|Hne].
      * rewrite Heq, lookup_insert_eq. by eexists.
      * rewrite lookup_insert_ne by done. by eexists.
  - split; [by apply handle_ledger_ok|by apply handle_keeps_refs].
Qed.

(** X14. The bounds survive a growing catalogue: starting from any
    catalogue within bounds that has no borrow records, in particular
    from no books at all, any sequence that mixes book creations with
    CreateBorrow and CreateReturn requests keeps
    [0 <= available_copies <= total_copies] for every book, and every
    borrow keeps pointing to a book that exists. *)
Theorem bounds_hold_as_catalogue_grows (rs : list library_request) w0 :
  pristine (db w0) →
  (∀ bid b, books (db (serve_all rs w0)) !! bid = Some b →
            0 <= available_copies b <= total_copies b) ∧
  (∀ k br, borrows (db (serve_all rs w0)) !! k = Some br →
           is_Some (books (db (serve_all rs w0)) !! book_id br)).
Proof.
  intros Hinit.
  assert (ledger_ok (db w0) ∧ refs_ok (db w0)) as Hinv.
  { split; [by apply pristine_ledger_ok|].
    destruct Hinit as [Hnone _]. unfold refs_ok. rewrite Hnone.
    apply map_Forall_empty. }
  clear Hinit. unfold serve_all. revert w0 Hinv.
  induction rs as [|r rs IH]; intros w Hinv; simpl.
  - destruct Hinv as [Hok Hrefs]. split; [|exact Hrefs].
    intros bid b Hb. exact (ledger_ok_in_bounds _ Hok bid b Hb).
  - apply IH, serve_keeps_ledger, Hinv.
Qed.

Lemma bounds_hold_as_catalogue_grows_witness :
  0 <= available_copies (mkBook "Test Book" 5 4)
    <= total_copies (mkBook "Test Book" 5 4).
Proof.
  refine (proj1 (bounds_hold_as_catalogue_grows
                   [AddBook true test_shelves (new_book_form test_book);
                    AddBook false test_shelves (new_book_form test_book);
                    AddBook true test_shelves
                      (new_book_form (mkBook "Bad" 1 2));
                    Lend (BorrowRequest 1 1 100 101)] empty_library _) 1 _ _).
  - split; [reflexivity|]. apply map_Forall_empty.
  - vm_compute. reflexivity.
Defined.

(** ** Racing borrows *)

Lemma borrow_validation_reads_only uid bid w :
  (BorrowView.is_valid uid bid w).1 = w.
Proof.
  destruct w as [[us bs brs] ob]. unfold_ops. rd.
  destruct (us !! uid); rd; [|done].
  destruct (bs !! bid); rd; [|done].
  destruct (50 <=? _); rd; [done|].
  destruct (3 <=? _)%nat; rd; [done|].
  by destruct (_ <=? 0).
Qed.

Lemma borrow_validation_passed uid bid w v :
  (BorrowView.is_valid uid bid w).2 = inr v →
  ∃ u b, v = ((uid, u), (bid, b)) ∧
         users (db w) !! uid = Some u ∧ books (db w) !! bid = Some b ∧
         0 < available_copies b.
Proof.
  destruct w as [[us bs brs] ob]. unfold_ops. rd.
  destruct (us !! uid) as [u|]; rd; [|done].
  destruct (bs !! bid) as [b|]; rd; [|done].
  destruct (50 <=? _); rd; [done|].
  destruct (3 <=? _)%nat; rd; [done|].
  destruct (_ <=? 0) eqn:Hc; rd; [done|].
  intros [= <-]. exists u, b. apply Z.leb_gt in Hc. done.
Qed.

Lemma create_after_validation u uid b bid now1 now2 w :
  users (db w) !! uid = Some u → is_Some (books (db w) !! bid) →
  email_ok u = true →
  BorrowSerializer.create (uid, u) (bid, b) now1 now2 w
  = (mkWorld
       (mkDB (users (db w)) (<[bid := lend b]> (books (db w)))
             (<[next_pk (borrows (db w)) := new_borrow uid bid now1 now2]>
                (borrows (db w))))
       (outbox w ++ [mkMail (email u) (title b) (username u)
                            (now2 + timedelta_days 14)]),
     inr (next_pk (borrows (db w)), new_borrow uid bid now1 now2)).
Proof.
  intros Hu _ He. destruct w as [[us bs brs] ob]. rd in Hu.
  unfold_ops. rd. rewrite Hu. rd.
  unfold email_ok in He. apply andb_true_iff in He as [He1 He2].
  apply negb_true_iff in He1. rewrite He1, He2. rd.
  by rewrite lookup_insert_eq.
Qed.

(** X15. When two borrow requests for the same book are both validated
    before either is created, and the addresses of both users pass the
    handler's checks, both creations succeed, each writing back the
    book row it read during validation: two open borrows are stored
    under different keys, yet the book ends with only one copy fewer
    than it had. *)
Theorem racing_borrows_lose_a_copy w uidA uidB bid vA vB a1 a2 b1 b2 :
  (BorrowView.is_valid uidA bid w).2 = inr vA →
  (BorrowView.is_valid uidB bid w).2 = inr vB →
  email_ok vA.1.2 = true → email_ok vB.1.2 = true →
  let rA := BorrowSerializer.create vA.1 vA.2 a1 a2
              (BorrowView.is_valid uidB bid
                 (BorrowView.is_valid uidA bid w).1).1 in
  let rB := BorrowSerializer.create vB.1 vB.2 b1 b2 rA.1 in
  ∃ kA kB b b',
    rA.2 = inr (kA, new_borrow uidA bid a1 a2) ∧
    rB.2 = inr (kB, new_borrow uidB bid b1 b2) ∧
    kA ≠ kB ∧
    borrows (db rB.1) !! kA = Some (new_borrow uidA bid a1 a2) ∧
    borrows (db rB.1) !! kB = Some (new_borrow uidB bid b1 b2) ∧
    books (db w) !! bid = Some b ∧ books (db rB.1) !! bid = Some b' ∧
    available_copies b' = available_copies b - 1.
Proof.
  intros HA HB HeA HeB.
  rewrite !borrow_validation_reads_only.
  apply borrow_validation_passed in HA as (uA & b & -> & HuA & Hb & _).
  apply borrow_validation_passed in HB as (uB & b0 & -> & HuB & Hb0 & _).
  assert (b0 = b) as -> by congruence.
  simpl in HeA, HeB. cbn zeta. rd.
  rewrite (create_after_validation uA uidA b bid a1 a2 w) by eauto. rd.
  rewrite (create_after_validation uB uidB b bid b1 b2); rd;
    [|done|rewrite lookup_insert_eq; by eexists|done].
  set (kA := next_pk (borrows (db w))).
  set (brs1 := <[kA := new_borrow uidA bid a1 a2]> (borrows (db w))).
  assert (brs1 !! kA = Some (new_borrow uidA bid a1 a2)) as HkA
    by apply lookup_insert_eq.
  assert (kA ≠ next_pk brs1) as Hne.
  { intros Heq. pose proof (next_pk_fresh brs1) as Hf.
    rewrite <- Heq in Hf. congruence. }
  exists kA, (next_pk brs1), b, (lend b).
  rewrite lookup_insert_ne by done. rewrite !lookup_insert_eq.
  repeat split; done.
Qed.

Lemma racing_borrows_lose_a_copy_witness :
  ∃ kA kB b b',
    (BorrowSerializer.create (1, testuser) (1, mkBook "Test Book" 1 1) 5 5
       last_copy_world).2 = inr (kA, new_borrow 1 1 5 5) ∧
    (BorrowSerializer.create
       (2, mkUser "otheruser" "other@example.com" 0)
       (1, mkBook "Test Book" 1 1) 6 6
       (BorrowSerializer.create (1, testuser) (1, mkBook "Test Book" 1 1) 5 5
          last_copy_world).1).2 = inr (kB, new_borrow 2 1 6 6) ∧
    kA ≠ kB ∧ available_copies b = 1 ∧ available_copies b' = 0.
Proof.
  destruct (racing_borrows_lose_a_copy last_copy_world 1 2 1
              ((1, testuser), (1, mkBook "Test Book" 1 1))
              ((2, mkUser "otheruser" "other@example.com" 0),
               (1, mkBook "Test Book" 1 1)) 5 5 6 6)
    as (kA & kB & b & b' & HA & HB & Hne & _ & _ & Hb & _ & Hav);
    try (vm_compute; reflexivity).
  exists kA, kB, b, b'.
  assert (b = mkBook "Test Book" 1 1) as Heq
    by (vm_compute in Hb; congruence).
  repeat split; try done.
  - by rewrite Heq.
  - rewrite Hav, Heq. reflexivity.
Defined.

(** ** The matcher and the addresses it accepts *)

Lemma append_empty_inv u v :
  u +:+ v = EmptyString → u = EmptyString ∧ v = EmptyString.
Proof. destruct u; simpl; [done|discriminate]. Qed.

Lemma append_cons_inv c s u v :
  u +:+ v = String c s →
  u = EmptyString ∧ v = String c s ∨ ∃ u', u = String c u' ∧ s = u' +:+ v.
Proof.
  destruct u as [|c' u']; simpl; [by left|].
  intros [= -> <-]. right. by eexists.
Qed.

Lemma append_cons c u v : String c u +:+ v = String c (u +:+ v).
Proof. reflexivity. Qed.

Lemma append_assoc u v t : (u +:+ v) +:+ t = u +:+ (v +:+ t).
Proof.
  induction u as [|c u IH]; [done|]. by rewrite !append_cons, IH.
Qed.

Lemma append_empty_r u : u +:+ EmptyString = u.
Proof. induction u as [|c u IH]; [done|]. by rewrite append_cons, IH. Qed.

Lemma lang_cat_inv r s w :
  lang (Cat r s) w → ∃ u v, w = u +:+ v ∧ lang r u ∧ lang s v.
Proof. inversion 1; subst. by eexists _, _. Qed.

Lemma lang_alt_inv r s w : lang (Alt r s) w → lang r w ∨ lang s w.
Proof. inversion 1; subst; auto. Qed.

Lemma lang_class_inv p w :
  lang (Class p) w → ∃ c, w = String c EmptyString ∧ p c = true.
Proof. inversion 1; subst. by eexists. Qed.

Lemma lang_eps_inv w : lang Eps w → w = EmptyString.
Proof. by inversion 1. Qed.

Lemma nullable_lang r : nullable r = true ↔ lang r EmptyString.
Proof.
  induction r as [| |p|r1 IH1 r2 IH2|r1 IH1 r2 IH2|r IH]; simpl.
  - split; [done|]. inversion 1.
  - split; [constructor|done].
  - split; [done|]. inversion 1.
  - rewrite andb_true_iff, IH1, IH2. split.
    + intros [H1 H2]. exact (lang_cat _ _ _ _ H1 H2).
    + intros H. apply lang_cat_inv in H as (u & v & Heq & Hu & Hv).
      symmetry in Heq. apply append_empty_inv in Heq as [-> ->]. done.
  - rewrite orb_true_iff, IH1, IH2. split.
    + intros [H|H]; [by apply lang_alt_l|by apply lang_alt_r].
    + apply lang_alt_inv.
  - split; [constructor|done].
Qed.

Lemma lang_star_cons_inv r c s :
  lang (Star r) (String c s) →
  ∃ u v, s = u +:+ v ∧ lang r (String c u) ∧ lang (Star r) v.
Proof.
  intros H. remember (Star r) as sr eqn:Hsr.
  remember (String c s) as cs eqn:Hcs. revert Hsr Hcs.
  induction H as [| | | | | |r' u v Hu _ Hv IH]; intros Hsr Hcs; try done.
  injection Hsr as ->.
  apply append_cons_inv in Hcs as [[-> ->]|(u' & -> & ->)].
  - by apply IH.
  - by exists u', v.
Qed.

Lemma deriv_lang c r s : lang (deriv c r) s ↔ lang r (String c s).
Proof.
  revert s.
  induction r as [| |p|r1 IH1 r2 IH2|r1 IH1 r2 IH2|r IH]; intros s; simpl.
  - split; inversion 1.
  - split; inversion 1.
  - split.
    + destruct (p c) eqn:Hp; [|inversion 1].
      intros H. apply lang_eps_inv in H as ->. by constructor.
    + intros H. apply lang_class_inv in H as (c' & [= ? ?] & Hp).
      subst. rewrite Hp. constructor.
  - split.
    + destruct (nullable r1) eqn:Hn.
      * intros H. apply lang_alt_inv in H as [H|H].
        -- apply lang_cat_inv in H as (u & v & -> & Hu & Hv).
           apply IH1 in Hu. rewrite <- append_cons. by constructor.
        -- apply IH2 in H. apply nullable_lang in Hn.
           exact (lang_cat _ _ _ _ Hn H).
      * intros H. apply lang_cat_inv in H as (u & v & -> & Hu & Hv).
        apply IH1 in Hu. rewrite <- append_cons. by constructor.
    + intros H. apply lang_cat_inv in H as (u & v & Heq & Hu & Hv).
      symmetry in Heq.
      apply append_cons_inv in Heq as [[-> ->]|(u' & -> & ->)].
      * apply nullable_lang in Hu. rewrite Hu.
        apply lang_alt_r. by apply IH2.
      * apply IH1 in Hu.
        destruct (nullable r1); [apply lang_alt_l|]; by constructor.
  - split.
    + intros H. apply lang_alt_inv in H as [H|H];
        [apply lang_alt_l; by apply IH1|apply lang_alt_r; by apply IH2].
    + intros H. apply lang_alt_inv in H as [H|H];
        [apply lang_alt_l; by apply IH1|apply lang_alt_r; by apply IH2].
  - split.
    + intros H. apply lang_cat_inv in H as (u & v & -> & Hu & Hv).
      apply IH in Hu. rewrite <- append_cons. by constructor.
    + intros H. apply lang_star_cons_inv in H as (u & v & -> & Hu & Hv).
      apply IH in Hu. by constructor.
Qed.

(** The matcher decides the language of its pattern. *)
Lemma matches_iff_lang r s : matches r s = true ↔ lang r s.
Proof.
  revert r. induction s as [|c s IH]; intros r; simpl.
  - apply nullable_lang.
  - rewrite IH. apply deriv_lang.
Qed.

Lemma lang_star_class p s :
  lang (Star (Class p)) s ↔ all_chars p s = true.
Proof.
  split.
  - intros H. remember (Star (Class p)) as sr eqn:Hsr. revert Hsr.
    induction H as [| | | | | |r u v Hu _ Hv IH]; intros Hsr; try done.
    injection Hsr as ->. apply lang_class_inv in Hu as (c & -> & Hc).
    rewrite append_cons. simpl. rewrite Hc. by apply IH.
  - induction s as [|c s IH]; simpl; [constructor|].
    intros [Hc Hs]%andb_true_iff.
    change (String c s) with (String c EmptyString +:+ s).
    constructor; [by constructor|by apply IH].
Qed.

Lemma lang_plus_class p s :
  lang (Plus (Class p)) s ↔ s ≠ EmptyString ∧ all_chars p s = true.
Proof.
  unfold Plus. split.
  - intros H. apply lang_cat_inv in H as (u & v & -> & Hu & Hv).
    apply lang_class_inv in Hu as (c & -> & Hc).
    apply lang_star_class in Hv. rewrite append_cons. simpl.
    rewrite Hc. done.
  - intros [Hne Hs]. destruct s as [|c s]; [done|]. simpl in Hs.
    apply andb_true_iff in Hs as [Hc Hs].
    change (String c s) with (String c EmptyString +:+ s).
    constructor; [by constructor|by apply lang_star_class].
Qed.

Lemma lang_at_least_2_class p s :
  lang (AtLeast2 (Class p)) s ↔
  (2 <= String.length s)%nat ∧ all_chars p s = true.
Proof.
  unfold AtLeast2. split.
  - intros H. apply lang_cat_inv in H as (u & v & -> & Hu & Hv).
    apply lang_cat_inv in Hv as (u2 & v2 & -> & Hu2 & Hv2).
    apply lang_class_inv in Hu as (c & -> & Hc).
    apply lang_class_inv in Hu2 as (c2 & -> & Hc2).
    apply lang_star_class in Hv2. rewrite !append_cons. simpl.
    rewrite Hc, Hc2. split; [lia|done].
  - intros [Hlen Hs]. destruct s as [|c [|c2 s]]; simpl in Hlen; [lia|lia|].
    simpl in Hs. apply andb_true_iff in Hs as [Hc Hs].
    apply andb_true_iff in Hs as [Hc2 Hs].
    change (String c (String c2 s))
      with (String c EmptyString +:+ (String c2 EmptyString +:+ s)).
    constructor; [by constructor|].
    constructor; [by constructor|by apply lang_star_class].
Qed.

Lemma lang_char c s :
  lang (Class (Ascii.eqb c)) s ↔ s = String c EmptyString.
Proof.
  split.
  - intros H. apply lang_class_inv in H as (c' & -> & Hc).
    apply Ascii.eqb_eq in Hc. by subst.
  - intros ->. constructor. apply Ascii.eqb_refl.
Qed.

(** X16. The addresses the notification handler accepts are exactly
    those of the shape local [@] domain [.] tld, optionally followed by
    one newline: a non-empty local part of letters, digits and
    [._%+-], a non-empty domain of letters, digits and [.-], and a top
    level of at least two letters.  The empty address is not among
    them. *)
Theorem accepted_address_shape u :
  email_ok u = true ↔
  ∃ loc dom tld nl,
    email u = loc +:+ "@" +:+ dom +:+ "." +:+ tld +:+ nl ∧
    loc ≠ EmptyString ∧ all_chars local_char loc = true ∧
    dom ≠ EmptyString ∧ all_chars domain_char dom = true ∧
    (2 <= String.length tld)%nat ∧ all_chars letter tld = true ∧
    (nl = EmptyString ∨ nl = String newline EmptyString).
Proof.
  unfold email_ok, re_match_anchored. rewrite andb_true_iff, negb_true_iff.
  rewrite matches_iff_lang. split.
  - intros [_ H]. unfold email_pattern in H.
    apply lang_cat_inv in H as (e & nl & -> & He & Hnl).
    apply lang_cat_inv in He as (loc & r1 & -> & Hloc & H1).
    apply lang_cat_inv in H1 as (at' & r2 & -> & Hat & H2).
    apply lang_cat_inv in H2 as (dom & r3 & -> & Hdom & H3).
    apply lang_cat_inv in H3 as (dot & tld & -> & Hdot & Htld).
    apply lang_char in Hat as ->. apply lang_char in Hdot as ->.
    apply lang_plus_class in Hloc as [Hl1 Hl2].
    apply lang_plus_class in Hdom as [Hd1 Hd2].
    apply lang_at_least_2_class in Htld as [Ht1 Ht2].
    exists loc, dom, tld, nl. rewrite !append_assoc.
    repeat split; try done.
    apply lang_alt_inv in Hnl as [Hnl|Hnl].
    + left. by apply lang_eps_inv.
    + right. by apply lang_char.
  - intros (loc & dom & tld & nl & Heq & Hl1 & Hl2 & Hd1 & Hd2 & Ht1 & Ht2
            & Hnl).
    rewrite Heq. split.
    + destruct loc; [done|]. reflexivity.
    + replace (loc +:+ "@" +:+ dom +:+ "." +:+ tld +:+ nl)
        with ((loc +:+ "@" +:+ dom +:+ "." +:+ tld) +:+ nl)
        by (by rewrite !append_assoc).
      constructor.
      * unfold email_pattern.
        constructor; [by apply lang_plus_class|].
        constructor; [by apply lang_char|].
        constructor; [by apply lang_plus_class|].
        constructor; [by apply lang_char|].
        by apply lang_at_least_2_class.
      * destruct Hnl as [->| ->]; [apply lang_alt_l; constructor|].
        apply lang_alt_r. by apply lang_char.
Qed.

Lemma accepted_address_shape_witness : email_ok testuser = true.
Proof.
  apply (accepted_address_shape testuser).
  exists "testuser"%string, "example"%string, "com"%string, EmptyString.
  repeat split; try reflexivity; try discriminate.
  - simpl. lia.
  - by left.
Defined.

Example address_of_fixture_has_the_shape :
  email testuser = "testuser" +:+ "@" +:+ "example" +:+ "." +:+ "com"
                   +:+ EmptyString.
Proof. reflexivity. Qed.

(** ** Racing returns, in general *)

Lemma return_validation_passed uid u k br w :
  users (db w) !! uid = Some u → borrows (db w) !! k = Some br →
  return_date br = None → user_id br = uid →
  ReturnView.is_valid uid k w = (w, inr k).
Proof.
  intros Hu Hk Hopen Hown. destruct w as [[us bs brs] ob].
  rd in Hu. rd in Hk. unfold_ops. rd.
  rewrite Hu. rd. rewrite Hk. rd. rewrite Hopen.
  by rewrite bool_decide_eq_false_2 by (intros ?; done).
Qed.

Lemma save_writes_whatever_it_finds k br b u now w :
  borrows (db w) !! k = Some br →
  books (db w) !! book_id br = Some b →
  users (db w) !! user_id br = Some u →
  ReturnSerializer.save k now w
  = (mkWorld
       (mkDB (<[user_id br := penalise u (due_date br) now]> (users (db w)))
             (<[book_id br := take_back b]> (books (db w)))
             (<[k := close br now]> (borrows (db w))))
       (outbox w),
     inr (k, close br now)).
Proof.
  intros Hk Hb Hu. destruct w as [[us bs brs] ob].
  rd in Hu. rd in Hk. rd in Hb. unfold_ops. rd.
  rewrite Hk. rd. rewrite Hb. rd. by rewrite Hu.
Qed.

(** X17. Whenever two return requests for the same open borrow are both
    validated before either is saved, both succeed, the book gains two
    copies for the one that came back, and the borrower is charged the
    late penalty of each of the two saves. *)
Theorem racing_returns_count_twice w uid u k br b n1 n2 :
  users (db w) !! uid = Some u →
  borrows (db w) !! k = Some br →
  return_date br = None → user_id br = uid →
  books (db w) !! book_id br = Some b →
  let st := run_schedule [0; 1; 0; 1]%nat
              (w, [Received uid k n1; Received uid k n2]) in
  st.2 = [Responded (inr (k, close br n1)); Responded (inr (k, close br n2))] ∧
  (∃ b', books (db st.1) !! book_id br = Some b' ∧
         available_copies b' = available_copies b + 2) ∧
  (∃ u', users (db st.1) !! uid = Some u' ∧
         penalty_points u'
         = penalty_points u
           + (if due_date br <? n1
              then Z.max ((n1 - due_date br) / 86400000000) 0 * 2 else 0)
           + (if due_date br <? n2
              then Z.max ((n2 - due_date br) / 86400000000) 0 * 2 else 0)).
Proof.
  intros Hu Hk Hopen Hown Hb.
  unfold run_schedule, schedule_step. cbn [foldl snd fst].
  cbn [lookup list_lookup step_thread].
  rewrite (return_validation_passed uid u k br w) by done.
  cbn [fst snd insert list_insert lookup list_lookup step_thread].
  rewrite (return_validation_passed uid u k br w) by done.
  cbn [fst snd insert list_insert lookup list_lookup step_thread].
  rewrite (save_writes_whatever_it_finds k br b u n1 w)
    by (done || by rewrite Hown).
  cbn [fst snd insert list_insert lookup list_lookup step_thread].
  rewrite (save_writes_whatever_it_finds k (close br n1) (take_back b)
             (penalise u (due_date br) n1) n2);
    [|unfold close; rd; by rewrite lookup_insert_eq..].
  cbn [fst snd insert list_insert lookup list_lookup]. rd.
  split; [done|]. unfold close. rd. split.
  - exists (take_back (take_back b)). rewrite lookup_insert_eq.
    split; [done|]. simpl. lia.
  - exists (penalise (penalise u (due_date br) n1) (due_date br) n2).
    rewrite Hown, lookup_insert_eq. split; [done|].
    unfold penalise, days.
    destruct (due_date br <? n1), (due_date br <? n2); simpl; lia.
Qed.

Lemma racing_returns_count_twice_witness :
  ∃ u', users (db (run_schedule [0; 1; 0; 1]%nat
                     (overdue_world,
                      [Received 1 1 (timedelta_days 20 + 7);
                       Received 1 1 (timedelta_days 20 + 8)])).1) !! 1
        = Some u' ∧
        penalty_points u' = 24.
Proof.
  destruct (racing_returns_count_twice overdue_world 1 testuser 1
              (mkBorrow 1 1 0 (timedelta_days 14) None)
              (mkBook "Test Book" 5 0)
              (timedelta_days 20 + 7) (timedelta_days 20 + 8))
    as (_ & _ & u' & Hu' & Hp); try (vm_compute; reflexivity).
  exists u'. split; [exact Hu'|]. rewrite Hp. vm_compute. reflexivity.
Defined.
